(** * Live chat: scroll, pagination and cursor bookkeeping

    A shallow embedding of the two components of the live tab,

    - [LiveChatContainer] (src/core/client/stream/tabs/Live/LiveChatContainer.tsx)
    - [LiveCommentActionsContainer]
      (src/core/client/stream/tabs/Live/LiveComment/LiveCommentActionsContainer.tsx)

    The container is a React function component.  Its mutable cells are the
    refs made by [useRef], one piece of React state ([newComment]) and the
    [liveChat.tailing] field of the Relay local record.  Every callback of
    the component is embedded as a computation over a [Store] holding these
    cells.  A callback runs until it returns or reaches an [await] before
    the next one starts (the browser's event loop); what is left of it after
    the [await] runs in a later turn, when the promise has settled, and
    other callbacks may run in between.  What a callback asks of the outside
    world (loads, scrolling, analytics events, storage reads and writes) is
    appended to a log.

    The conversation overlay keeps its own piece of React state and is
    embedded apart; the comment-entered subscription touches none of these
    cells and is left out. *)

From Stdlib Require Import ZArith QArith Qabs String List Bool Lia Lqa.
From stdpp Require Import base option gmap strings.
Import ListNotations.

Local Open Scope string_scope.

(** ** JavaScript values as the components use them *)

Module JS.

(** [!!s] on a string: the empty string is the only falsy one. *)
Definition truthy_string (s : string) : bool :=
  negb (String.eqb s "").

(** [!!o] on a value of type [T | null] whose [T] is an object or a
    positive number (DOM nodes, timer handles, parsed records). *)
Definition truthy_option {A : Type} (o : option A) : bool :=
  match o with Some _ => true | None => false end.

(** [!!b] on a value of type [boolean | undefined]. *)
Definition truthy_optbool (o : option bool) : bool :=
  match o with Some b => b | None => false end.

(** [a < b] on numbers that are not NaN. *)
Definition Qltb (a b : Q) : bool := negb (Qle_bool b a).

(** [a > b] on the time values of two [Date] objects; [None] stands for
    the NaN of an invalid date, which compares false with everything. *)
Definition date_gt (a b : option Z) : bool :=
  match a, b with
  | Some x, Some y => Z.ltb y x
  | _, _ => false
  end.

End JS.

(** ** The chat container *)

Module LiveChat.

Import JS.

(** *** Data *)

(** [interface NewComment { id: string; cursor: string }] *)
Record NewComment := { nc_id : string; nc_cursor : string }.

(** [CursorState], the record kept in local storage: [{createdAt, cursor}].
    The store is modelled at the level of the parsed record: the only
    writer is [onCommentVisible], which writes [JSON.stringify] of such a
    record, and [JSON.parse] gives the record back. *)
Record CursorState := { createdAt : string; cursor : string }.

(** The part of the viewer fragment the container reads. *)
Record Viewer := { viewer_id : string; status_current : list string }.

(** What one render closes over: the props, and the read-only fields
    [storyID] and [storyURL] of the local record. *)
Record Props := {
  beforeHasMore : bool;
  isLoadingMoreBefore : bool;
  afterHasMore : bool;
  isLoadingMoreAfter : bool;
  viewer : option Viewer;
  story_id : string;
  cursorSet : option bool;
  storyID : string;
  storyURL : string
}.

(** The scroll container as the browser reports it. *)
Record Element := {
  scrollTop : Q;
  scrollHeight : Q;
  offsetHeight : Q;
  has_scroll : bool   (* [element.scroll] is defined *)
}.

(** What the browser provides when a callback runs: the DOM nodes behind
    [containerRef], [beginRef] and [beforeAfterRef] ([None] is a null
    ref), [document.getElementById], the user agent test of
    [beforeCommentsChanged], and the time value of [new Date(s)]. *)
Record Host := {
  containerRef : option Element;
  beginRef : option unit;
  beforeAfterRef : option unit;
  getElementById : string -> option unit;
  isSafari : bool;
  Date_valueOf : string -> option Z
}.

Inductive Behavior := smooth | auto.

Record ScrollToOptions := {
  left : option Q;
  top : option Q;
  behavior : option Behavior
}.

(** The refs holding a boolean. *)
Inductive FlagRef :=
| scrollEnabled
| beforeCommentsIncoming
| afterCommentsIncoming.

(** The refs holding [number | null] scroll snapshots. *)
Inductive SnapRef :=
| prevScrollHeight
| prevScrollTop.

(** The cells holding a timer handle: the [useRef<number | null>] ones and
    [timeoutReg], the variable the mount effect shares with its cleanup. *)
Inductive TimeoutRef :=
| timeoutReg
| clearScrollStateTimeout
| beforeMaintainScrollStateTimeout
| afterMaintainScrollStateTimeout
| tailingScrollTimeout
| afterTailingScrollTimeout
| scrollToCommentTimeout.

#[export] Instance FlagRef_eq_dec : EqDecision FlagRef.
Proof. solve_decision. Defined.
#[export] Instance SnapRef_eq_dec : EqDecision SnapRef.
Proof. solve_decision. Defined.
#[export] Instance TimeoutRef_eq_dec : EqDecision TimeoutRef.
Proof. solve_decision. Defined.

(** A ref is an object, and an object converts to [true]: this is what
    [!r] tests when [r] is the ref itself and not [r.current]. *)
Definition truthy_ref {R : Type} (r : R) : bool := true.

(** The callbacks handed to [window.setTimeout].  [scrollToComment] is a
    [useCallback] over [newComment]: the timer keeps the value of the
    render that scheduled it. *)
Inductive Timer :=
| T_enableScroll
| T_clearScrollState
| T_maintainPrevScrollStateAndClear
| T_performTailingScroll
| T_afterTailingScroll
| T_scrollToComment (captured : option NewComment).

Inductive Direction := Before | After.

#[export] Instance Direction_eq_dec : EqDecision Direction.
Proof. solve_decision. Defined.

(** Calls that leave the component. *)
Inductive Effect :=
| E_loadMore (d : Direction)
| E_setTailing (value : bool)
| E_setNewComment (value : option NewComment)
| E_scroll (o : ScrollToOptions)
| E_set_scrollLeft (v : Q)
| E_set_scrollTop (v : Q)
| E_scrollIntoView_beforeAfter (b : option Behavior)
| E_scrollIntoView_comment (id : string)
| E_emit_LiveChatLoadBefore (storyID viewerID : string)
| E_emit_LiveJumpToComment (storyID commentID viewerID : string)
| E_setCursor (c : string)
| E_getItem (key : string)
| E_setItem (key : string) (value : CursorState).

(** The calls of [context.localStorage] the component makes.  Both return
    a promise. *)
Inductive Request :=
| R_getItem (key : string)
| R_setItem (key : string) (value : CursorState).

(** What a call of [onCommentVisible] holds on to across its awaits: its
    arguments, the key it built, and [newComment] as the render whose
    callback it is had it. *)
Record Frame := {
  f_id : string;
  f_createdAt : string;
  f_cursor : string;
  f_key : string;
  f_newComment : option NewComment
}.

(** A promise of the storage that a call of [onCommentVisible] awaits.
    The storage lives outside the component: [result] is [None] until it
    has carried the request out, and then holds what the promise resolves
    with, the stored record or null for [getItem] and nothing for
    [setItem]. *)
Record Awaited := {
  request : Request;
  result : option (option CursorState);
  frame : Frame
}.

(** *** The store *)

Record Store := {
  tailing : bool;                               (* local: liveChat.tailing *)
  flag : FlagRef -> bool;                       (* r.current *)
  snap : SnapRef -> option Q;
  timeout : TimeoutRef -> option positive;
  newComment : option NewComment;               (* useState *)
  localStorage : gmap string CursorState;       (* context.localStorage *)
  awaited : gmap positive Awaited;              (* promises of the storage *)
  next_awaited : positive;
  timers : gmap positive (Timer * Z);           (* pending browser timers *)
  next_timer : positive;
  outstanding : Direction -> nat;               (* loads not settled yet *)
  log : list Effect
}.

Definition upd {K V : Type} `{EqDecision K} (f : K -> V) (k : K) (v : V)
  : K -> V :=
  fun k' => if decide (k' = k) then v else f k'.

Definition set_tailing (b : bool) (s : Store) : Store :=
  {| tailing := b; flag := flag s; snap := snap s; timeout := timeout s;
     newComment := newComment s; localStorage := localStorage s;
     awaited := awaited s; next_awaited := next_awaited s;
     timers := timers s; next_timer := next_timer s;
     outstanding := outstanding s; log := log s |}.

Definition set_flag (r : FlagRef) (b : bool) (s : Store) : Store :=
  {| tailing := tailing s; flag := upd (flag s) r b; snap := snap s;
     timeout := timeout s; newComment := newComment s;
     localStorage := localStorage s; awaited := awaited s;
     next_awaited := next_awaited s; timers := timers s;
     next_timer := next_timer s; outstanding := outstanding s;
     log := log s |}.

Definition set_snap (r : SnapRef) (v : option Q) (s : Store) : Store :=
  {| tailing := tailing s; flag := flag s; snap := upd (snap s) r v;
     timeout := timeout s; newComment := newComment s;
     localStorage := localStorage s; awaited := awaited s;
     next_awaited := next_awaited s; timers := timers s;
     next_timer := next_timer s; outstanding := outstanding s;
     log := log s |}.

Definition set_timeout (r : TimeoutRef) (v : option positive)
    (s : Store) : Store :=
  {| tailing := tailing s; flag := flag s; snap := snap s;
     timeout := upd (timeout s) r v; newComment := newComment s;
     localStorage := localStorage s; awaited := awaited s;
     next_awaited := next_awaited s; timers := timers s;
     next_timer := next_timer s; outstanding := outstanding s;
     log := log s |}.

Definition set_newComment (v : option NewComment) (s : Store) : Store :=
  {| tailing := tailing s; flag := flag s; snap := snap s;
     timeout := timeout s; newComment := v; localStorage := localStorage s;
     awaited := awaited s; next_awaited := next_awaited s;
     timers := timers s; next_timer := next_timer s;
     outstanding := outstanding s; log := log s |}.

Definition set_localStorage (m : gmap string CursorState)
    (s : Store) : Store :=
  {| tailing := tailing s; flag := flag s; snap := snap s;
     timeout := timeout s; newComment := newComment s; localStorage := m;
     awaited := awaited s; next_awaited := next_awaited s;
     timers := timers s; next_timer := next_timer s;
     outstanding := outstanding s; log := log s |}.

Definition set_awaited (m : gmap positive Awaited) (n : positive)
    (s : Store) : Store :=
  {| tailing := tailing s; flag := flag s; snap := snap s;
     timeout := timeout s; newComment := newComment s;
     localStorage := localStorage s; awaited := m; next_awaited := n;
     timers := timers s; next_timer := next_timer s;
     outstanding := outstanding s; log := log s |}.

Definition set_timers (m : gmap positive (Timer * Z)) (n : positive)
    (s : Store) : Store :=
  {| tailing := tailing s; flag := flag s; snap := snap s;
     timeout := timeout s; newComment := newComment s;
     localStorage := localStorage s; awaited := awaited s;
     next_awaited := next_awaited s; timers := m; next_timer := n;
     outstanding := outstanding s; log := log s |}.

Definition set_outstanding (f : Direction -> nat) (s : Store) : Store :=
  {| tailing := tailing s; flag := flag s; snap := snap s;
     timeout := timeout s; newComment := newComment s;
     localStorage := localStorage s; awaited := awaited s;
     next_awaited := next_awaited s; timers := timers s;
     next_timer := next_timer s; outstanding := f; log := log s |}.

Definition add_log (e : Effect) (s : Store) : Store :=
  {| tailing := tailing s; flag := flag s; snap := snap s;
     timeout := timeout s; newComment := newComment s;
     localStorage := localStorage s; awaited := awaited s;
     next_awaited := next_awaited s; timers := timers s;
     next_timer := next_timer s; outstanding := outstanding s;
     log := log s ++ [e] |}.

(** *** Computations

    A callback either completes or throws; what it wrote before throwing
    stays written. *)

Inductive Completion (A : Type) :=
| Normal (a : A)
| Throw.
Arguments Normal {A} a.
Arguments Throw {A}.

Definition M (A : Type) : Type := Store -> Completion A * Store.

Definition ret {A : Type} (a : A) : M A := fun s => (Normal a, s).

Definition bind {A B : Type} (c : M A) (k : A -> M B) : M B :=
  fun s =>
    match c s with
    | (Normal a, s') => k a s'
    | (Throw, s') => (Throw, s')
    end.

Definition throw {A : Type} : M A := fun s => (Throw, s).

(** [try { c } catch (err) { h }] *)
Definition try_catch (c : M unit) (h : M unit) : M unit :=
  fun s =>
    match c s with
    | (Normal a, s') => (Normal a, s')
    | (Throw, s') => h s'
    end.

Definition gets {A : Type} (f : Store -> A) : M A :=
  fun s => (Normal (f s), s).

Definition modify (f : Store -> Store) : M unit :=
  fun s => (Normal tt, f s).

Definition when (b : bool) (c : M unit) : M unit :=
  if b then c else ret tt.

(** The store a callback leaves behind, thrown or not. *)
Definition exec {A : Type} (c : M A) (s : Store) : Store := snd (c s).

Declare Scope js_scope.
Delimit Scope js_scope with js.
Notation "x <- c ;; k" := (bind c (fun x => k))
  (at level 100, c at next level, right associativity) : js_scope.
Notation "c ;; k" := (bind c (fun _ => k))
  (at level 100, right associativity) : js_scope.
Local Open Scope js_scope.

(** [r.current] and [r.current = v] *)
Definition read_flag (r : FlagRef) : M bool := gets (fun s => flag s r).
Definition write_flag (r : FlagRef) (b : bool) : M unit :=
  modify (set_flag r b).
Definition read_snap (r : SnapRef) : M (option Q) :=
  gets (fun s => snap s r).
Definition write_snap (r : SnapRef) (v : option Q) : M unit :=
  modify (set_snap r v).
Definition read_timeout (r : TimeoutRef) : M (option positive) :=
  gets (fun s => timeout s r).
Definition write_timeout (r : TimeoutRef) (v : option positive) : M unit :=
  modify (set_timeout r v).

Definition call (e : Effect) : M unit := modify (add_log e).

(** [window.setTimeout(cb, delay)]: a fresh positive handle. *)
Definition setTimeout (cb : Timer) (delay : Z) : M positive :=
  fun s =>
    let id := next_timer s in
    (Normal id,
     set_timers (<[id := (cb, delay)]> (timers s)) (Pos.succ id) s).

Definition clearTimeout (h : option positive) : M unit :=
  match h with
  | Some id => modify (fun s => set_timers (delete id (timers s))
                                           (next_timer s) s)
  | None => ret tt
  end.

(** [containerRef.current.x]: a [TypeError] on a null ref. *)
Definition deref {A : Type} (o : option A) : M A :=
  match o with
  | Some a => ret a
  | None => throw
  end.

(** *** The callbacks of [LiveChatContainer] *)

(** [setLocal({ liveChat: { tailing: value } })] *)
Definition setTailing (value : bool) : M unit :=
  call (E_setTailing value) ;;
  modify (set_tailing value).

Definition setNewComment (value : option NewComment) : M unit :=
  call (E_setNewComment value) ;;
  modify (set_newComment value).

Definition scrollElement (element : Element) (options : ScrollToOptions)
  : M unit :=
  if has_scroll element then call (E_scroll options)
  else
    (match left options with
     | Some l => call (E_set_scrollLeft l)
     | None => ret tt
     end) ;;
    (match top options with
     | Some t => call (E_set_scrollTop t)
     | None => ret tt
     end).

Definition scrollToBeforeAfter (h : Host) (b : option Behavior) : M unit :=
  _ <- deref (beforeAfterRef h) ;;
  call (E_scrollIntoView_beforeAfter b).

Definition scrollToEnd (h : Host) (b : option Behavior) : M unit :=
  container <- deref (containerRef h) ;;
  let height := scrollHeight container in
  scrollElement container
    {| left := Some 0%Q; top := Some height; behavior := b |}.

(** The effect on [story.id] and [cursorSet].  [lastScrollTop], which it
    also writes, is read nowhere in the component and has no cell here.
    An early return registers no cleanup. *)
Definition mount_effect (p : Props) (h : Host) : M unit :=
  before <- read_flag beforeCommentsIncoming ;;
  after <- read_flag afterCommentsIncoming ;;
  if before || after then write_timeout timeoutReg None
  else
    (if truthy_optbool (cursorSet p) then scrollToBeforeAfter h None
     else (scrollToEnd h None ;; setTailing true)) ;;
    id <- setTimeout T_enableScroll 300 ;;
    write_timeout timeoutReg (Some id).

Definition mount_cleanup : M unit :=
  t <- read_timeout timeoutReg ;;
  clearTimeout t.

Definition clearScrollState : M unit :=
  write_snap prevScrollHeight None ;;
  write_snap prevScrollTop None ;;
  write_flag beforeCommentsIncoming false ;;
  write_flag afterCommentsIncoming false.

Definition maintainPrevScrollState (h : Host) : M unit :=
  ph <- read_snap prevScrollHeight ;;
  pt <- read_snap prevScrollTop ;;
  match ph, pt with
  | Some prevHeight, Some prevTop =>
      container <- deref (containerRef h) ;;
      let currentHeight := scrollHeight container in
      let prevScroll := if Qltb 0 prevTop then prevTop else 0%Q in
      let offset := (currentHeight - prevHeight)%Q in
      call (E_set_scrollTop (offset + prevScroll)%Q)
  | _, _ => ret tt
  end.

Definition maintainPrevScrollStateAndClear (h : Host) : M unit :=
  maintainPrevScrollState h ;;
  t <- read_timeout clearScrollStateTimeout ;;
  when (truthy_option t) (clearTimeout t) ;;
  id <- setTimeout T_clearScrollState 300 ;;
  write_timeout clearScrollStateTimeout (Some id).

Definition beforeCommentsChanged (h : Host) : M unit :=
  t <- read_timeout beforeMaintainScrollStateTimeout ;;
  when (truthy_option t) (clearTimeout t) ;;
  if isSafari h then
    id <- setTimeout T_maintainPrevScrollStateAndClear 500 ;;
    write_timeout beforeMaintainScrollStateTimeout (Some id)
  else maintainPrevScrollStateAndClear h.

(** [loadMoreBefore()] and [loadMoreAfter()]: the request leaves, and stays
    outstanding until its promise settles. *)
Definition loadMore (d : Direction) : M unit :=
  call (E_loadMore d) ;;
  modify (fun s => set_outstanding
                     (upd (outstanding s) d (S (outstanding s d))) s).

Definition viewerID (p : Props) : string :=
  match viewer p with
  | Some v => viewer_id v
  | None => ""
  end.

(** [onBeginInView] up to its [await]. *)
Definition onBeginInView (p : Props) (h : Host) : M unit :=
  incoming <- read_flag beforeCommentsIncoming ;;
  if beforeHasMore p && negb (isLoadingMoreBefore p) && negb incoming then
    try_catch
      (write_flag beforeCommentsIncoming true ;;
       c1 <- deref (containerRef h) ;;
       write_snap prevScrollHeight (Some (scrollHeight c1)) ;;
       c2 <- deref (containerRef h) ;;
       write_snap prevScrollTop (Some (scrollTop c2)) ;;
       call (E_emit_LiveChatLoadBefore (story_id p) (viewerID p)) ;;
       loadMore Before)
      (ret tt)   (* ignore for now *)
  else ret tt.

Inductive Settlement := Fulfilled | Rejected.

(** [await promise] once the promise has settled. *)
Definition await (r : Settlement) : M unit :=
  match r with
  | Fulfilled => ret tt
  | Rejected => throw
  end.

(** The rest of [onBeginInView] and of [onEndInView]: the [await] sits at
    the end of the [try] block, whose [catch] is empty. *)
Definition resume_after_load (r : Settlement) : M unit :=
  try_catch (await r) (ret tt).

Definition paginateNewAfterComments (h : Host) : M unit :=
  t <- read_timeout afterMaintainScrollStateTimeout ;;
  when (truthy_option t) (clearTimeout t) ;;
  if isSafari h then
    id <- setTimeout T_maintainPrevScrollStateAndClear 500 ;;
    write_timeout afterMaintainScrollStateTimeout (Some id)
  else maintainPrevScrollStateAndClear h.

Definition afterTailingScroll : M unit :=
  write_flag scrollEnabled true.

Definition performTailingScroll (h : Host) : M unit :=
  write_flag scrollEnabled false ;;
  scrollToEnd h (Some smooth) ;;
  t <- read_timeout afterTailingScrollTimeout ;;
  when (truthy_option t) (clearTimeout t) ;;
  id <- setTimeout T_afterTailingScroll 100 ;;
  write_timeout afterTailingScrollTimeout (Some id).

Definition afterCommentsChanged (h : Host) : M unit :=
  incoming <- read_flag afterCommentsIncoming ;;
  tl <- gets tailing ;;
  if incoming && negb tl then paginateNewAfterComments h
  else if tl then
    t <- read_timeout tailingScrollTimeout ;;
    when (truthy_option t) (clearTimeout t) ;;
    write_flag scrollEnabled false ;;
    id <- setTimeout T_performTailingScroll 100 ;;
    write_timeout tailingScrollTimeout (Some id)
  else ret tt.

(** [onEndInView] up to its [await]. *)
Definition onEndInView (p : Props) : M unit :=
  incoming <- read_flag afterCommentsIncoming ;;
  tl <- gets tailing ;;
  if afterHasMore p && negb (isLoadingMoreAfter p) && negb incoming
     && negb tl then
    try_catch
      (write_flag afterCommentsIncoming true ;;
       setTailing false ;;
       loadMore After)
      (ret tt)   (* ignore for now *)
  else ret tt.

(** [Math.abs(scrollTop - (scrollHeight - offsetHeight)) < 5] *)
Definition atBottom (container : Element) : bool :=
  Qltb (Qabs (scrollTop container
              - (scrollHeight container - offsetHeight container))) 5.

(** The guard of [onScroll] reads [!scrollEnabled], the ref, where the
    other users of the flag read and write [scrollEnabled.current]. *)
Definition onScroll (p : Props) (h : Host) : M unit :=
  let container := containerRef h in
  let begin := beginRef h in
  if negb (truthy_option container) || negb (truthy_option begin)
     || negb (truthy_ref scrollEnabled) then ret tt
  else
    c <- deref container ;;
    setTailing (atBottom c && negb (afterHasMore p)).

Definition onTailingInView (p : Props) : M unit :=
  incoming <- read_flag afterCommentsIncoming ;;
  if negb (afterHasMore p) && negb (isLoadingMoreAfter p) && negb incoming
  then setTailing true
  else ret tt.

(** [`liveCursor:${storyID}:${storyURL}`] *)
Definition cursorKey (p : Props) : string :=
  "liveCursor:" ++ storyID p ++ ":" ++ storyURL p.

(** [await context.localStorage.m(...)]: the call leaves the component
    with a promise, and the rest of the callback waits for it to settle. *)
Definition await_storage (r : Request) (f : Frame) : M unit :=
  modify (fun s =>
            set_awaited
              (<[next_awaited s :=
                   {| request := r; result := None; frame := f |}]>
                 (awaited s))
              (Pos.succ (next_awaited s)) s).

(** [await context.localStorage.getItem(key)] *)
Definition getItem (key : string) (f : Frame) : M unit :=
  call (E_getItem key) ;;
  await_storage (R_getItem key) f.

(** [await context.localStorage.setItem(key, JSON.stringify(value))] *)
Definition setItem (key : string) (value : CursorState) (f : Frame)
  : M unit :=
  call (E_setItem key value) ;;
  await_storage (R_setItem key value) f.

(** [new Date(createdAt) > new Date(current.createdAt)] *)
Definition newer (h : Host) (created : string) (current : option CursorState)
  : bool :=
  match current with
  | Some cur =>
      date_gt (Date_valueOf h created) (Date_valueOf h (createdAt cur))
  | None => false
  end.

(** [onCommentVisible] up to its first [await].  The callback is a
    [useCallback] over [newComment], [storyID] and [storyURL]: the call
    keeps the values of the render that made it.  [visible] is not read. *)
Definition onCommentVisible (p : Props) (visible : bool)
    (id created cur : string) : M unit :=
  let key := cursorKey p in
  nc <- gets newComment ;;
  getItem key {| f_id := id; f_createdAt := created; f_cursor := cur;
                 f_key := key; f_newComment := nc |}.

(** [onCommentVisible] after its last [await]. *)
Definition onCommentVisible_end (f : Frame) : M unit :=
  match f_newComment f with
  | Some n =>
      if String.eqb (nc_id n) (f_id f) then setNewComment None else ret tt
  | None => ret tt
  end.

(** [onCommentVisible] from the value of [getItem] to its next [await],
    or to its end when it writes nothing. *)
Definition onCommentVisible_rawValue (h : Host) (f : Frame)
    (rawValue : option CursorState) : M unit :=
  let current := rawValue in
  let value := {| createdAt := f_createdAt f; cursor := f_cursor f |} in
  if truthy_option current && newer h (f_createdAt f) current then
    setItem (f_key f) value f
  else if negb (truthy_option current) then
    setItem (f_key f) value f
  else onCommentVisible_end f.

Definition scrollToComment (h : Host) (captured : option NewComment)
  : M unit :=
  match captured with
  | None => ret tt
  | Some n =>
      (match getElementById h ("comment-" ++ nc_id n ++ "-bottom") with
       | Some _ => call (E_scrollIntoView_comment (nc_id n))
       | None => ret tt
       end) ;;
      setNewComment None
  end.

Definition jumpToComment (p : Props) : M unit :=
  nc <- gets newComment ;;
  match nc with
  | None => ret tt
  | Some n =>
      call (E_setCursor (nc_cursor n)) ;;
      call (E_emit_LiveJumpToComment (story_id p) (nc_id n) (viewerID p)) ;;
      t <- read_timeout scrollToCommentTimeout ;;
      when (truthy_option t) (clearTimeout t) ;;
      _ <- setTimeout (T_scrollToComment nc) 300 ;;
      ret tt
  end.

Definition onCommentSubmitted (commentID cur : string) : M unit :=
  if negb (truthy_string commentID) || negb (truthy_string cur) then ret tt
  else
    tl <- gets tailing ;;
    if negb tl then
      setNewComment (Some {| nc_id := commentID; nc_cursor := cur |})
    else ret tt.

Definition closeJumpToComment : M unit :=
  nc <- gets newComment ;;
  match nc with
  | None => ret tt
  | Some _ => setNewComment None
  end.

(** The two [useEffectAtUnmount] blocks and the cleanup of the mount
    effect. *)
Definition unmount : M unit :=
  mount_cleanup ;;
  t1 <- read_timeout beforeMaintainScrollStateTimeout ;;
  when (truthy_option t1) (clearTimeout t1) ;;
  t2 <- read_timeout clearScrollStateTimeout ;;
  when (truthy_option t2) (clearTimeout t2) ;;
  t3 <- read_timeout afterMaintainScrollStateTimeout ;;
  when (truthy_option t3) (clearTimeout t3).

(** *** The event loop *)

Definition run_timer (h : Host) (t : Timer) : M unit :=
  match t with
  | T_enableScroll => write_flag scrollEnabled true
  | T_clearScrollState => clearScrollState
  | T_maintainPrevScrollStateAndClear => maintainPrevScrollStateAndClear h
  | T_performTailingScroll => performTailingScroll h
  | T_afterTailingScroll => afterTailingScroll
  | T_scrollToComment captured => scrollToComment h captured
  end.

(** A pending timer fires once and leaves the browser's table. *)
Definition fire (h : Host) (id : positive) : M unit :=
  t <- gets (fun s => timers s !! id) ;;
  match t with
  | None => ret tt
  | Some (cb, _) =>
      clearTimeout (Some id) ;;
      run_timer h cb
  end.

(** The promise of a load settles: the request is no longer outstanding
    and the callback that awaited it resumes. *)
Definition settle (d : Direction) (r : Settlement) : M unit :=
  modify (fun s => set_outstanding
                     (upd (outstanding s) d (Nat.pred (outstanding s d))) s) ;;
  resume_after_load r.

(** Modelled from the spec: [context.localStorage], the persisted string
    key-value store that is kept outside the component and whose
    implementation is not among these sources.  The storage carries out a
    request it was sent: a read takes the record under the key as it is
    then, a write replaces it.  When it does so, between the call and the
    settling of the promise, is its own affair. *)
Definition serve (a : positive) : M unit :=
  w <- gets (fun s => awaited s !! a) ;;
  match w with
  | None => ret tt
  | Some w =>
      match result w with
      | Some _ => ret tt
      | None =>
          match request w with
          | R_getItem key =>
              v <- gets (fun s => localStorage s !! key) ;;
              modify (fun s =>
                        set_awaited
                          (<[a := {| request := request w; result := Some v;
                                     frame := frame w |}]> (awaited s))
                          (next_awaited s) s)
          | R_setItem key value =>
              modify (fun s =>
                        set_localStorage (<[key := value]> (localStorage s))
                                         s) ;;
              modify (fun s =>
                        set_awaited
                          (<[a := {| request := request w;
                                     result := Some None;
                                     frame := frame w |}]> (awaited s))
                          (next_awaited s) s)
          end
      end
  end.

(** A promise of the storage settles and the call of [onCommentVisible]
    that awaited it goes on.  A promise is fulfilled only once the storage
    has carried its request out; a rejected one throws out of the
    callback, which catches nothing. *)
Definition resume (h : Host) (a : positive) (r : Settlement) : M unit :=
  w <- gets (fun s => awaited s !! a) ;;
  match w with
  | None => ret tt
  | Some w =>
      match r with
      | Rejected =>
          modify (fun s => set_awaited (delete a (awaited s))
                                       (next_awaited s) s) ;;
          throw
      | Fulfilled =>
          match result w with
          | None => ret tt
          | Some v =>
              modify (fun s => set_awaited (delete a (awaited s))
                                           (next_awaited s) s) ;;
              match request w with
              | R_getItem _ => onCommentVisible_rawValue h (frame w) v
              | R_setItem _ _ => onCommentVisible_end (frame w)
              end
          end
      end
  end.

(** What the browser, React and the storage deliver to the component.  The
    delays of the timers are kept in the table, but time is not modelled:
    any pending timer may be the next to fire.  Likewise any request sent
    to the storage may be the next it carries out ([Served]), and any
    promise of the storage the next to settle ([Resumed]). *)
Inductive Event :=
| Mounted
| DepsChanged
| Unmounted
| BeginInView
| EndInView
| TailingInView
| Scrolled
| BeforeCommentsChanged
| AfterCommentsChanged
| Settled (d : Direction) (r : Settlement)
| TimerFired (id : positive)
| CommentVisible (visible : bool) (id created cur : string)
| Served (a : positive)
| Resumed (a : positive) (r : Settlement)
| CommentSubmitted (commentID cur : string)
| JumpClicked
| CloseClicked.

Definition handle (p : Props) (h : Host) (e : Event) : M unit :=
  match e with
  | Mounted => mount_effect p h
  | DepsChanged => mount_cleanup ;; mount_effect p h
  | Unmounted => unmount
  | BeginInView => onBeginInView p h
  | EndInView => onEndInView p
  | TailingInView => onTailingInView p
  | Scrolled => onScroll p h
  | BeforeCommentsChanged => beforeCommentsChanged h
  | AfterCommentsChanged => afterCommentsChanged h
  | Settled d r => settle d r
  | TimerFired id => fire h id
  | CommentVisible visible id created cur =>
      onCommentVisible p visible id created cur
  | Served a => serve a
  | Resumed a r => resume h a r
  | CommentSubmitted commentID cur => onCommentSubmitted commentID cur
  | JumpClicked => jumpToComment p
  | CloseClicked => closeJumpToComment
  end.

(** One turn of the event loop, under the props of the current render and
    the DOM of the moment. *)
Record Turn := { props : Props; host : Host; event : Event }.

Definition step (t : Turn) (s : Store) : Store :=
  exec (handle (props t) (host t) (event t)) s.

Definition run (ts : list Turn) (s : Store) : Store :=
  fold_left (fun s t => step t s) ts s.

(** Every store the run passes through, the first one included. *)
Fixpoint trace (ts : list Turn) (s : Store) : list Store :=
  match ts with
  | [] => [s]
  | t :: ts' => s :: trace ts' (step t s)
  end.

(** The store of a freshly mounted component: every [useRef] and [useState]
    at its initial value, no timer, no request; the local record and the
    local storage outlive the component and are given. *)
Definition init (tl : bool) (ls : gmap string CursorState) : Store :=
  {| tailing := tl;
     flag := fun _ => false;
     snap := fun _ => None;
     timeout := fun _ => None;
     newComment := None;
     localStorage := ls;
     awaited := ∅;
     next_awaited := 1%positive;
     timers := ∅;
     next_timer := 1%positive;
     outstanding := fun _ => 0;
     log := [] |}.

(** What a callback called, in order. *)
Definition calls (c : M unit) (s : Store) : list Effect :=
  skipn (length (log s)) (log (exec c s)).

End LiveChat.

(** ** The comment action bar *)

Module ActionBar.

Import JS.

(** [GQLUSER_STATUS] is a string enum of the GraphQL schema; these are the
    three members the component tests for. *)
Definition BANNED : string := "BANNED".
Definition SUSPENDED : string := "SUSPENDED".
Definition WARNED : string := "WARNED".

(** The fields of the fragments the component reads. *)
Record Viewer := { role : string; status_current : list string }.
Record Story := { canModerate : bool }.
Record Comment := { comment_id : string; replyCount : Z }.
Record Settings := { sso_enabled : bool; sso_targetFilter_admin : bool }.

(** The props; an optional callback is [Some tt] when it was supplied. *)
Record Props := {
  story : Story;
  comment : Comment;
  viewer : option Viewer;
  settings : Settings;
  onConversation : option unit;
  onReply : option unit;
  showReport : option bool;
  onToggleReport : option unit
}.

(** What the action bar renders. *)
Inductive Control :=
| ReactionButtonContainer (readOnly : bool)
| ReplyButton
| ConversationButton
| ReportButton (open : option bool)
| ModerateButton (href : string).

(** [Array.prototype.includes] on a list of enum members. *)
Definition includes (l : list string) (x : string) : bool :=
  existsb (String.eqb x) l.

(** [!!viewer?.status.current.includes(status)] *)
Definition hasStatus (v : option Viewer) (status : string) : bool :=
  match v with
  | Some u => includes (status_current u) status
  | None => false
  end.

Definition isViewerBanned (pr : Props) : bool := hasStatus (viewer pr) BANNED.
Definition isViewerSuspended (pr : Props) : bool :=
  hasStatus (viewer pr) SUSPENDED.
Definition isViewerWarned (pr : Props) : bool := hasStatus (viewer pr) WARNED.

Section Collaborators.

(** [can(viewer, Ability.MODERATE)] of coral-stream/permissions and
    [getModerationLink({ commentID })] of coral-framework/helpers are
    imported by the component; they are taken as given. *)
Variable can_MODERATE : Viewer -> bool.
Variable getModerationLink : string -> string.

(** [!!viewer && story.canModerate && can(viewer, Ability.MODERATE)] *)
Definition showModerationCaret (pr : Props) : bool :=
  match viewer pr with
  | Some v => canModerate (story pr) && can_MODERATE v
  | None => false
  end.

(** [moderationLinkSuffix]: the suffix, or [None] for the [false] the
    chain of [&&] stops at. *)
Definition moderationLinkSuffix (accessToken : option string) (pr : Props)
  : option string :=
  match accessToken with
  | Some tok =>
      if truthy_string tok && sso_enabled (settings pr)
         && sso_targetFilter_admin (settings pr)
      then Some ("#accessToken=" ++ tok)
      else None
  | None => None
  end.

Definition gotoModerateCommentHref (accessToken : option string)
    (pr : Props) : string :=
  let link := getModerationLink (comment_id (comment pr)) in
  match moderationLinkSuffix accessToken pr with
  | Some suffix => if truthy_string suffix then link ++ suffix else link
  | None => link
  end.

(** The children of the [leftActions] div. *)
Definition leftActions (pr : Props) : list Control :=
  ((if truthy_option (viewer pr)
    then [ReactionButtonContainer
            (isViewerBanned pr || isViewerSuspended pr || isViewerWarned pr)]
    else [])
   ++ [ReplyButton]
   ++ (if Z.ltb 0 (replyCount (comment pr))
          && truthy_option (onConversation pr)
       then [ConversationButton]
       else []))%list.

(** The children of the [rightActions] flex. *)
Definition rightActions (accessToken : option string) (pr : Props)
  : list Control :=
  ((if truthy_option (viewer pr)
       && negb (isViewerBanned pr)
       && negb (isViewerSuspended pr)
       && negb (isViewerWarned pr)
       && negb (showModerationCaret pr)
       && truthy_option (onToggleReport pr)
    then [ReportButton (showReport pr)]
    else [])
   ++ (if showModerationCaret pr
       then [ModerateButton (gotoModerateCommentHref accessToken pr)]
       else []))%list.

End Collaborators.

End ActionBar.

(** ** The click handlers of the action bar *)

Module ActionBarHandlers.

Import ActionBar.

(** The calls the action bar makes into the props it was given. *)
Inductive Call :=
| Call_onConversation (c : Comment)
| Call_onReply (c : Comment)
| Call_onToggleReport.

(** [handleOnConversation]: returns when no [onConversation] was supplied. *)
Definition handleOnConversation (pr : Props) : list Call :=
  match onConversation pr with
  | None => []
  | Some _ => [Call_onConversation (comment pr)]
  end.

(** [handleOnReply]: returns when no [onReply] was supplied. *)
Definition handleOnReply (pr : Props) : list Call :=
  match onReply pr with
  | None => []
  | Some _ => [Call_onReply (comment pr)]
  end.

(** The [onClick] of the three buttons the component wires itself; the
    reaction control handles its own clicks and the moderation link is an
    [href]. *)
Definition onClick (pr : Props) (c : Control) : list Call :=
  match c with
  | ReplyButton => handleOnReply pr
  | ConversationButton => handleOnConversation pr
  | ReportButton _ =>
      match onToggleReport pr with
      | Some _ => [Call_onToggleReport]
      | None => []
      end
  | ReactionButtonContainer _ | ModerateButton _ => []
  end.

End ActionBarHandlers.

(** ** What the chat container renders, and its conversation overlay *)

Module LiveChatView.

Import JS LiveChat.

(** [ConversationViewState["type"]] *)
Inductive ConversationType := conversation | parent | reply | replyToParent.

(** The comment, or parent comment, an overlay is opened on; its [id] is
    all the container reads. *)
Record Target := { target_id : string }.

(** [interface ConversationViewState]; [None] is an absent or null field. *)
Record ConversationViewState := {
  visible : bool;
  comment : option Target;
  type : option ConversationType
}.

(** [useState<ConversationViewState>({ visible: false })] *)
Definition initialConversationView : ConversationViewState :=
  {| visible := false; comment := None; type := None |}.

(** [LiveChatOpenConversationEvent.emit(context.eventEmitter, {...})] *)
Record OpenConversationEvent := {
  ev_storyID : string;
  ev_commentID : string;
  ev_viewerID : string;
  ev_type : ConversationType
}.

(** [onShowConv]: the event it emits and the state it sets. *)
Definition onShowConv (p : Props) (c : Target) (ty : ConversationType)
  : list OpenConversationEvent * ConversationViewState :=
  ([{| ev_storyID := story_id p; ev_commentID := target_id c;
       ev_viewerID := viewerID p; ev_type := ty |}],
   {| visible := true; comment := Some c; type := Some ty |}).

Definition onReplyToComment (p : Props) (c : Target) := onShowConv p c reply.
Definition onReplyToParent (p : Props) (c : Target) :=
  onShowConv p c replyToParent.
Definition onShowConversation (p : Props) (c : Target) :=
  onShowConv p c conversation.
Definition onShowParentConversation (p : Props) (c : Target) :=
  onShowConv p c parent.

(** [onCloseConversation]: [setConversationView({ visible: false,
    comment: null })]. *)
Definition onCloseConversation
  : list OpenConversationEvent * ConversationViewState :=
  ([], {| visible := false; comment := None; type := None |}).

(** What the viewer does with conversations. *)
Inductive ConversationAction :=
| ReplyToComment (c : Target)
| ReplyToParent (c : Target)
| ShowConversation (c : Target)
| ShowParentConversation (c : Target)
| CloseConversation.

Definition act (p : Props) (a : ConversationAction)
  : list OpenConversationEvent * ConversationViewState :=
  match a with
  | ReplyToComment c => onReplyToComment p c
  | ReplyToParent c => onReplyToParent p c
  | ShowConversation c => onShowConversation p c
  | ShowParentConversation c => onShowParentConversation p c
  | CloseConversation => onCloseConversation
  end.

(** The events emitted and the state left by a sequence of actions; every
    callback replaces the state. *)
Fixpoint acts (p : Props) (l : list ConversationAction)
    (v : ConversationViewState)
  : list OpenConversationEvent * ConversationViewState :=
  match l with
  | [] => ([], v)
  | a :: l' =>
      let (evs, v') := act p a in
      let (evs', v'') := acts p l' v' in
      ((evs ++ evs')%list, v'')
  end.

(** [CommentEdge]: the cursor and the id of the node. *)
Record Edge := { edge_cursor : string; node_id : string }.

(** The children the container returns. *)
Inductive Part :=
| NoCommentsCallOut
| BeginSentinel
| Row (id cur : string)
| BeforeAfterMarker (newLabel : bool)
| EndSentinel
| TailingSentinel
| JumpButtons
| ConversationOverlay (c : Target)
| PostCommentForm.

Definition row (e : Edge) : Part := Row (node_id e) (edge_cursor e).

(** [!!viewer?.status.current.includes(status)] *)
Definition hasStatus (v : option Viewer) (status : string) : bool :=
  match v with
  | Some u => existsb (String.eqb status) (status_current u)
  | None => false
  end.

(** [showCommentForm = !banned && !suspended && !warned] *)
Definition showCommentForm (v : option Viewer) : bool :=
  negb (hasStatus v ActionBar.BANNED)
  && negb (hasStatus v ActionBar.SUSPENDED)
  && negb (hasStatus v ActionBar.WARNED).

Definition render (before after : list Edge) (v : option Viewer)
    (pointer : option NewComment) (cv : ConversationViewState)
  : list Part :=
  ((if Nat.eqb (length after) 0 && Nat.eqb (length before) 0
    then [NoCommentsCallOut] else [])
   ++ [BeginSentinel]
   ++ map row before
   ++ [BeforeAfterMarker (Nat.ltb 0 (length after))]
   ++ map row after
   ++ [EndSentinel; TailingSentinel]
   ++ (if truthy_option pointer then [JumpButtons] else [])
   ++ (if visible cv && truthy_option (comment cv)
       then match comment cv with
            | Some c => [ConversationOverlay c]
            | None => []
            end
       else [])
   ++ (if showCommentForm v then [PostCommentForm] else []))%list.

End LiveChatView.

(** * Vocabulary of the properties *)

Import JS LiveChat.
Local Open Scope list_scope.
Local Open Scope js_scope.

(** [respects R c]: whatever [c] does, thrown or not, the store it leaves
    is related by [R] to the one it found. *)
Definition respects {A : Type} (R : Store -> Store -> Prop) (c : M A)
  : Prop :=
  forall s, R s (snd (c s)).

(** What [onEndInView] tests before it loads. *)
Definition end_guard (p : Props) (s : Store) : bool :=
  afterHasMore p && negb (isLoadingMoreAfter p)
  && negb (flag s afterCommentsIncoming) && negb (tailing s).

(** What [onBeginInView] tests before it loads. *)
Definition begin_guard (p : Props) (s : Store) : bool :=
  beforeHasMore p && negb (isLoadingMoreBefore p)
  && negb (flag s beforeCommentsIncoming).

(** The ref that guards the loads of a direction. *)
Definition incoming (d : Direction) : FlagRef :=
  match d with
  | Before => beforeCommentsIncoming
  | After => afterCommentsIncoming
  end.

(** No request is outstanding in a direction unless it is the only one and
    its ref is set. *)
Definition inflight_ok (s : Store) : Prop :=
  forall d : Direction,
    outstanding s d = 0 \/ (outstanding s d = 1 /\ flag s (incoming d) = true).

Definition is_sentinel (e : Event) : bool :=
  match e with
  | BeginInView | EndInView => true
  | _ => false
  end.

(** A render with more to load in both directions and nothing loading. *)
Definition sample_props : Props :=
  {| beforeHasMore := true; isLoadingMoreBefore := false;
     afterHasMore := true; isLoadingMoreAfter := false;
     viewer := Some {| viewer_id := "u1"; status_current := ["ACTIVE"] |};
     story_id := "s1"; cursorSet := None;
     storyID := "s1"; storyURL := "http://localhost/s1" |}.

(** A mounted DOM: a container 400px high over 1000px of content, scrolled
    to [y].  Time values are read off a small table. *)
Definition sample_host (y : Z) : Host :=
  {| containerRef := Some {| scrollTop := inject_Z y; scrollHeight := 1000;
                             offsetHeight := 400; has_scroll := true |};
     beginRef := Some tt;
     beforeAfterRef := Some tt;
     getElementById := fun _ => Some tt;
     isSafari := false;
     Date_valueOf := fun d =>
       if String.eqb d "2021-03-01T10:00:00.000Z" then Some 1614592800000%Z
       else if String.eqb d "2021-03-01T10:05:00.000Z"
            then Some 1614593100000%Z
       else if String.eqb d "2021-03-01T10:10:00.000Z"
            then Some 1614593400000%Z
       else None |}.

Definition turn (p : Props) (h : Host) (e : Event) : Turn :=
  {| props := p; host := h; event := e |}.

Definition stays_set (r : FlagRef) (s s' : Store) : Prop :=
  flag s r = true -> flag s' r = true.

(** The event of a turn is the firing of a pending [clearScrollState]
    timer. *)
Definition fires_clearScrollState (e : Event) (s : Store) : Prop :=
  exists id delay,
    e = TimerFired id /\ timers s !! id = Some (T_clearScrollState, delay).

(** [inflight_ok] is kept from one store to the next. *)
Definition keeps_inflight (s s' : Store) : Prop :=
  inflight_ok s -> inflight_ok s'.

(** No turn of the run fires a [clearScrollState] timer. *)
Fixpoint quiet (ts : list Turn) (s : Store) : Prop :=
  match ts with
  | [] => True
  | t :: ts' => ~ fires_clearScrollState (event t) s /\ quiet ts' (step t s)
  end.

(** The record [onCommentVisible] would write. *)
Definition seen (created cur : string) : CursorState :=
  {| createdAt := created; cursor := cur |}.

(** [onCommentVisible] writes: there is no record under the key, or the
    comment's [createdAt] is strictly newer than the stored one. *)
Definition overwrites (h : Host) (created : string)
    (current : option CursorState) : bool :=
  match current with
  | None => true
  | Some old =>
      date_gt (Date_valueOf h created) (Date_valueOf h (createdAt old))
  end.

(** [newComment && newComment.id === id], on what the call holds. *)
Definition hides (f : Frame) : bool :=
  match f_newComment f with
  | Some n => String.eqb (nc_id n) (f_id f)
  | None => false
  end.

(** [newComment && newComment.id === id], on the state of a render. *)
Definition sees_new (id : string) (s : Store) : bool :=
  match newComment s with
  | Some n => String.eqb (nc_id n) id
  | None => false
  end.

(** The events of the storage and of the callback that uses it. *)
Definition is_storage_event (e : Event) : bool :=
  match e with
  | CommentVisible _ _ _ _ | Served _ | Resumed _ _ => true
  | _ => false
  end.

(** What was logged from [s] to [s'] has no [setItem] in it. *)
Definition no_setItem (s s' : Store) : Prop :=
  exists es, log s' = log s ++ es /\ forall k v, ~ In (E_setItem k v) es.

(** The storage and the promises awaited from it are what they were. *)
Definition same_storage (s s' : Store) : Prop :=
  awaited s' = awaited s
  /\ next_awaited s' = next_awaited s
  /\ localStorage s' = localStorage s.

(** The stored record moves forward in time: once there is a record, a
    later one is the same record or one whose [createdAt] has a strictly
    greater time value under [D]. *)
Definition not_older (D : string -> option Z) (o o' : option CursorState)
  : Prop :=
  match o, o' with
  | None, _ => True
  | Some r, Some r' =>
      r' = r
      \/ exists x y, D (createdAt r) = Some x /\ D (createdAt r') = Some y
                     /\ (x < y)%Z
  | Some _, None => False
  end.

(** The record under [k] does not go back between two stores. *)
Definition cursor_forward (D : string -> option Z) (k : string)
    (s s' : Store) : Prop :=
  not_older D (localStorage s !! k) (localStorage s' !! k).

Definition is_visible (e : Event) : bool :=
  match e with
  | CommentVisible _ _ _ _ => true
  | _ => false
  end.

(** Visibility callbacks one at a time: a call of [onCommentVisible] is
    made only when no storage promise of an earlier call is awaited. *)
Fixpoint serial (ts : list Turn) (s : Store) : Prop :=
  match ts with
  | [] => True
  | t :: ts' =>
      (is_visible (event t) = true -> awaited s = ∅)
      /\ serial ts' (step t s)
  end.

(** An awaited promise agrees with the storage as it is: its frame holds
    the key of its read, a read that was carried out gave the record that
    is still stored, and a write that waits to be carried out is of a
    record that is not older than the stored one. *)
Definition consistent (D : string -> option Z) (w : Awaited) (s : Store)
  : Prop :=
  match request w, result w with
  | R_getItem key, None => f_key (frame w) = key
  | R_getItem key, Some v =>
      f_key (frame w) = key /\ v = localStorage s !! key
  | R_setItem key value, None =>
      not_older D (localStorage s !! key) (Some value)
  | R_setItem _ _, Some _ => True
  end.

(** At most one call of [onCommentVisible] is between its awaits, and its
    promise agrees with the storage. *)
Definition one_call (D : string -> option Z) (s : Store) : Prop :=
  awaited s = ∅
  \/ exists a w, awaited s = {[a := w]} /\ consistent D w s.

(** The turns of one call of [onCommentVisible] made in the store [s] and
    run to its end with nothing in between: the call, its read carried out
    and fulfilled and, when it writes, its write carried out and
    fulfilled. *)
Definition visible_alone (p : Props) (h : Host) (visible : bool)
    (id created cur : string) (s : Store) : list Turn :=
  let a := next_awaited s in
  [turn p h (CommentVisible visible id created cur);
   turn p h (Served a);
   turn p h (Resumed a Fulfilled)]
  ++ (if overwrites h created (localStorage s !! cursorKey p)
      then [turn p h (Served (Pos.succ a));
            turn p h (Resumed (Pos.succ a) Fulfilled)]
      else []).

(** A storage that holds the record of the comment of 10:00. *)
Definition sample_storage : gmap string CursorState :=
  {[ cursorKey sample_props := seen "2021-03-01T10:00:00.000Z" "cursor1" ]}.

(** Three comments come into view one after the other, each callback
    running to its end before the next: the comment of 10:05 is recorded,
    the one of 10:00 is not, the one of 10:10 replaces that of 10:05. *)
Definition sample_visible : list Turn :=
  map (turn sample_props (sample_host 0))
    [CommentVisible true "c2" "2021-03-01T10:05:00.000Z" "cursor2";
     Served 1; Resumed 1 Fulfilled; Served 2; Resumed 2 Fulfilled;
     CommentVisible true "c1" "2021-03-01T10:00:00.000Z" "cursor1";
     Served 3; Resumed 3 Fulfilled;
     CommentVisible true "c3" "2021-03-01T10:10:00.000Z" "cursor3";
     Served 4; Resumed 4 Fulfilled; Served 5; Resumed 5 Fulfilled].

(** Two comments come into view in one burst, the promises numbered from
    [a] on: both callbacks read the record before either writes. *)
Definition burst (a : positive) : list Event :=
  [CommentVisible true "c3" "2021-03-01T10:10:00.000Z" "cursor3";
   CommentVisible true "c2" "2021-03-01T10:05:00.000Z" "cursor2";
   Served a; Served (a + 1);
   Resumed a Fulfilled; Resumed (a + 1) Fulfilled;
   Served (a + 2); Served (a + 3);
   Resumed (a + 2) Fulfilled; Resumed (a + 3) Fulfilled].

Definition sample_burst : list Turn :=
  map (turn sample_props (sample_host 0)) (burst 1).

(** A render that resumes from a persisted cursor. *)
Definition resume_props : Props :=
  {| beforeHasMore := true; isLoadingMoreBefore := false;
     afterHasMore := true; isLoadingMoreAfter := false;
     viewer := None; story_id := "s1"; cursorSet := Some true;
     storyID := "s1"; storyURL := "http://localhost/s1" |}.

(** The test in front of the report control. *)
Definition report_guard (can_MODERATE : ActionBar.Viewer -> bool)
    (pr : ActionBar.Props) : bool :=
  truthy_option (ActionBar.viewer pr)
  && negb (ActionBar.isViewerBanned pr)
  && negb (ActionBar.isViewerSuspended pr)
  && negb (ActionBar.isViewerWarned pr)
  && negb (ActionBar.showModerationCaret can_MODERATE pr)
  && truthy_option (ActionBar.onToggleReport pr).

(** ** Vocabulary of the further properties *)

(** Every pending timer that runs [cb] is the one the cell [r] points at. *)
Definition sole_timer (r : TimeoutRef) (cb : Timer) (s : Store) : Prop :=
  forall id d, timers s !! id = Some (cb, d) -> timeout s r = Some id.

(** [sole_timer] is kept from one store to the next. *)
Definition keeps_sole (r : TimeoutRef) (cb : Timer) (s s' : Store) : Prop :=
  sole_timer r cb s -> sole_timer r cb s'.

(** The three timers the component cancels before it schedules them again,
    each with the cell that holds its handle. *)
Definition debounced_timers : list (TimeoutRef * Timer) :=
  [(clearScrollStateTimeout, T_clearScrollState);
   (tailingScrollTimeout, T_performTailingScroll);
   (afterTailingScrollTimeout, T_afterTailingScroll)].

(** The handles [window.setTimeout] gave out are below the next one. *)
Definition fresh_handles (s : Store) : Prop :=
  forall id x, timers s !! id = Some x -> (id < next_timer s)%positive.

Definition keeps_fresh (s s' : Store) : Prop :=
  fresh_handles s -> fresh_handles s'.

(** The cell [r] holds what it held. *)
Definition same_timeout (r : TimeoutRef) (s s' : Store) : Prop :=
  timeout s' r = timeout s r.

(** The callback whose handle the component keeps in the cell [r];
    [scrollToCommentTimeout] is given none. *)
Definition scheduled_by (r : TimeoutRef) (cb : Timer) : Prop :=
  match r with
  | timeoutReg => cb = T_enableScroll
  | clearScrollStateTimeout => cb = T_clearScrollState
  | beforeMaintainScrollStateTimeout => cb = T_maintainPrevScrollStateAndClear
  | afterMaintainScrollStateTimeout => cb = T_maintainPrevScrollStateAndClear
  | tailingScrollTimeout => cb = T_performTailingScroll
  | afterTailingScrollTimeout => cb = T_afterTailingScroll
  | scrollToCommentTimeout => False
  end.

(** Handles are fresh, the cells hold handles that were given out, and a
    cell that points at a pending timer points at one of its own kind. *)
Definition handles_ok (s : Store) : Prop :=
  fresh_handles s
  /\ (forall r id, timeout s r = Some id -> (id < next_timer s)%positive)
  /\ (forall r id cb d,
        timeout s r = Some id -> timers s !! id = Some (cb, d) ->
        scheduled_by r cb).

Definition keeps_handles (s s' : Store) : Prop :=
  handles_ok s -> handles_ok s'.

(** The cells [unmount] clears. *)
Definition unmount_cells : list TimeoutRef :=
  [timeoutReg; beforeMaintainScrollStateTimeout; clearScrollStateTimeout;
   afterMaintainScrollStateTimeout].

(** The DOM after the component is unmounted: the refs are null. *)
Definition unmounted_host : Host :=
  {| containerRef := None; beginRef := None; beforeAfterRef := None;
     getElementById := fun _ => None; isSafari := false;
     Date_valueOf := fun _ => None |}.

(** A mounted DOM whose container is 400px high over [height] px of
    content, scrolled to [y]. *)
Definition sample_host_of (y height : Z) : Host :=
  {| containerRef := Some {| scrollTop := inject_Z y;
                             scrollHeight := inject_Z height;
                             offsetHeight := 400; has_scroll := true |};
     beginRef := Some tt;
     beforeAfterRef := Some tt;
     getElementById := fun _ => Some tt;
     isSafari := false;
     Date_valueOf := fun _ => None |}.

(** A pending pointer has a non-empty id and a non-empty cursor. *)
Definition pointer_ok (s : Store) : Prop :=
  forall n, newComment s = Some n -> nc_id n <> "" /\ nc_cursor n <> "".

Definition keeps_pointer_ok (s s' : Store) : Prop :=
  pointer_ok s -> pointer_ok s'.




(** While the record [r] is stored under [k], no awaited promise can lead
    to a write under [k]: every frame holds the key of its read, a read of
    [k] that was carried out gave [r], and no write under [k] waits to be
    carried out. *)
Definition settled_on (k : string) (r : CursorState) (s : Store) : Prop :=
  localStorage s !! k = Some r
  /\ forall a w,
       awaited s !! a = Some w ->
       match request w, result w with
       | R_getItem key, None => f_key (frame w) = key
       | R_getItem key, Some v =>
           f_key (frame w) = key /\ (key = k -> v = Some r)
       | R_setItem key _, None => key <> k
       | R_setItem _ _, Some _ => True
       end.

(** The comment an action opens the overlay on, if it opens one. *)
Definition opens (a : LiveChatView.ConversationAction)
  : option (LiveChatView.Target * LiveChatView.ConversationType) :=
  match a with
  | LiveChatView.ReplyToComment c => Some (c, LiveChatView.reply)
  | LiveChatView.ReplyToParent c => Some (c, LiveChatView.replyToParent)
  | LiveChatView.ShowConversation c => Some (c, LiveChatView.conversation)
  | LiveChatView.ShowParentConversation c => Some (c, LiveChatView.parent)
  | LiveChatView.CloseConversation => None
  end.

(** The analytics event an opening action emits. *)
Definition opened_event (p : Props) (a : LiveChatView.ConversationAction)
  : list LiveChatView.OpenConversationEvent :=
  match opens a with
  | Some (c, ty) =>
      [{| LiveChatView.ev_storyID := story_id p;
          LiveChatView.ev_commentID := LiveChatView.target_id c;
          LiveChatView.ev_viewerID := viewerID p;
          LiveChatView.ev_type := ty |}]
  | None => []
  end.

(** * Properties *)

(** ** JavaScript comparisons *)

Lemma truthy_string_false (s : string) :
  truthy_string s = false <-> s = "".
Proof.
  unfold truthy_string. rewrite negb_false_iff. apply String.eqb_eq.
Qed.

Lemma Qltb_lt (a b : Q) : Qltb a b = true <-> (a < b)%Q.
Proof.
  unfold Qltb. rewrite negb_true_iff, <- not_true_iff_false, Qle_bool_iff.
  split; [apply Qnot_le_lt | apply Qlt_not_le].
Qed.

Lemma date_gt_spec (a b : option Z) :
  date_gt a b = true <-> exists x y, a = Some x /\ b = Some y /\ (y < x)%Z.
Proof.
  destruct a as [x|], b as [y|]; simpl; split;
    try (intros (x' & y' & Ha & Hb & Hlt)); try discriminate.
  - intros H. exists x, y. repeat split. now apply Z.ltb_lt.
  - injection Ha as ->. injection Hb as ->. now apply Z.ltb_lt.
Qed.

(** ** What a callback calls *)

Lemma calls_app (c : M unit) (s : Store) (es : list Effect) :
  log (exec c s) = log s ++ es -> calls c s = es.
Proof.
  intros H. unfold calls. rewrite H. apply drop_app_length.
Qed.

(** ** The end sentinel *)

Lemma onEndInView_log (p : Props) (s : Store) :
  log (exec (onEndInView p) s)
  = log s ++ (if end_guard p s
              then [E_setTailing false; E_loadMore After] else []).
Proof.
  unfold end_guard, exec, onEndInView, read_flag, gets, bind. cbn.
  destruct (afterHasMore p), (isLoadingMoreAfter p),
    (flag s afterCommentsIncoming), (tailing s); cbn;
    rewrite ?app_nil_r, <- ?app_assoc; reflexivity.
Qed.

(** C4: the end-sentinel handler issues a forward load exactly when more
    forward data exists, no forward load is in flight ([isLoadingMoreAfter]
    and [afterCommentsIncoming] both false) and tailing is false; what it
    then calls is [setTailing(false)] first and [loadMoreAfter()] second,
    and otherwise it calls nothing. *)
Theorem onEndInView_loads_exactly_when (p : Props) (s : Store) :
  (In (E_loadMore After) (calls (onEndInView p) s)
   <-> afterHasMore p = true /\ isLoadingMoreAfter p = false
       /\ flag s afterCommentsIncoming = false /\ tailing s = false)
  /\ calls (onEndInView p) s
     = (if afterHasMore p && negb (isLoadingMoreAfter p)
           && negb (flag s afterCommentsIncoming) && negb (tailing s)
        then [E_setTailing false; E_loadMore After] else []).
Proof.
  rewrite (calls_app _ _ _ (onEndInView_log p s)). unfold end_guard.
  split; [| reflexivity].
  destruct (afterHasMore p), (isLoadingMoreAfter p),
    (flag s afterCommentsIncoming), (tailing s); cbn;
    intuition (discriminate || auto).
Qed.

(** ** The begin sentinel *)

Lemma onBeginInView_log (p : Props) (h : Host) (s : Store) :
  log (exec (onBeginInView p h) s)
  = log s ++ (if begin_guard p s && truthy_option (containerRef h)
              then [E_emit_LiveChatLoadBefore (story_id p) (viewerID p);
                    E_loadMore Before]
              else []).
Proof.
  unfold begin_guard, exec, onBeginInView, read_flag, gets, bind. cbn.
  destruct (beforeHasMore p), (isLoadingMoreBefore p),
    (flag s beforeCommentsIncoming), (containerRef h); cbn;
    rewrite ?app_nil_r, <- ?app_assoc; reflexivity.
Qed.

Lemma onBeginInView_blocked (p : Props) (h : Host) (s : Store) :
  begin_guard p s = false -> exec (onBeginInView p h) s = s.
Proof.
  unfold begin_guard, exec, onBeginInView, read_flag, gets, bind. cbn.
  intros ->. reflexivity.
Qed.

Lemma onEndInView_blocked (p : Props) (s : Store) :
  end_guard p s = false -> exec (onEndInView p) s = s.
Proof.
  unfold end_guard, exec, onEndInView, read_flag, gets, bind. cbn.
  intros ->. reflexivity.
Qed.

(** ** In-flight guards *)

Lemma inflight_ok_init (tl : bool) (ls : gmap string CursorState) :
  inflight_ok (init tl ls).
Proof. intros d. left. reflexivity. Qed.

Lemma inflight_ok_bound (s : Store) :
  inflight_ok s -> outstanding s Before <= 1 /\ outstanding s After <= 1.
Proof.
  intros H. split; [destruct (H Before) as [E|[E _]]
                   | destruct (H After) as [E|[E _]]]; rewrite E; lia.
Qed.

Lemma onBeginInView_inflight_ok (p : Props) (h : Host) (s : Store) :
  inflight_ok s -> inflight_ok (exec (onBeginInView p h) s).
Proof.
  intros H. destruct (begin_guard p s) eqn:G.
  - unfold begin_guard in G.
    apply andb_prop in G as [G G3]. apply andb_prop in G as [G1 G2].
    apply negb_true_iff in G3.
    unfold exec, onBeginInView, read_flag, gets, bind. cbn.
    rewrite G1, G2, G3. cbn.
    destruct (containerRef h); cbn.
    + intros [|]; cbn.
      * destruct (H Before) as [E|[_ E]]; [| cbn in E; congruence].
        right. rewrite E. split; reflexivity.
      * apply (H After).
    + intros [|]; cbn.
      * destruct (H Before) as [E|[_ E]]; [| cbn in E; congruence].
        left. exact E.
      * apply (H After).
  - rewrite onBeginInView_blocked by exact G. exact H.
Qed.

Lemma onEndInView_inflight_ok (p : Props) (s : Store) :
  inflight_ok s -> inflight_ok (exec (onEndInView p) s).
Proof.
  intros H. destruct (end_guard p s) eqn:G.
  - unfold end_guard in G.
    apply andb_prop in G as [G G4]. apply andb_prop in G as [G G3].
    apply andb_prop in G as [G1 G2].
    apply negb_true_iff in G3, G4.
    unfold exec, onEndInView, read_flag, gets, bind. cbn.
    rewrite G1, G2, G3, G4. cbn.
    intros [|]; cbn.
    + apply (H Before).
    + destruct (H After) as [E|[_ E]]; [| cbn in E; congruence].
      right. rewrite E. split; reflexivity.
  - rewrite onEndInView_blocked by exact G. exact H.
Qed.

Lemma step_sentinel_inflight_ok (t : Turn) (s : Store) :
  is_sentinel (event t) = true -> inflight_ok s -> inflight_ok (step t s).
Proof.
  unfold step. destruct t as [p h e]; cbn.
  destruct e; cbn; try discriminate; intros _.
  - apply onBeginInView_inflight_ok.
  - apply onEndInView_inflight_ok.
Qed.

Lemma trace_sentinel_inflight_ok (ts : list Turn) :
  Forall (fun t => is_sentinel (event t) = true) ts ->
  forall s, inflight_ok s -> Forall inflight_ok (trace ts s).
Proof.
  induction 1 as [|t ts Ht _ IH]; intros s Hs; cbn.
  - constructor; [exact Hs | constructor].
  - constructor; [exact Hs |].
    apply IH. now apply step_sentinel_inflight_ok.
Qed.

Lemma guard_set_blocks_begin (p : Props) (h : Host) (s : Store) :
  flag s beforeCommentsIncoming = true \/ isLoadingMoreBefore p = true ->
  exec (onBeginInView p h) s = s.
Proof.
  intros H. apply onBeginInView_blocked. unfold begin_guard.
  destruct (beforeHasMore p), (isLoadingMoreBefore p),
    (flag s beforeCommentsIncoming); cbn; try reflexivity;
    destruct H; discriminate.
Qed.

Lemma guard_set_blocks_end (p : Props) (s : Store) :
  flag s afterCommentsIncoming = true \/ isLoadingMoreAfter p = true ->
  exec (onEndInView p) s = s.
Proof.
  intros H. apply onEndInView_blocked. unfold end_guard.
  destruct (afterHasMore p), (isLoadingMoreAfter p),
    (flag s afterCommentsIncoming), (tailing s); cbn; try reflexivity;
    destruct H; discriminate.
Qed.

(** C2: over any sequence of begin-sentinel and end-sentinel events (each
    under its own props and DOM), started where no request is outstanding
    without its guard ref set, at most one backward and at most one forward
    request is outstanding in every store the run passes through; and a
    sentinel event whose guard is set ([beforeCommentsIncoming] or
    [isLoadingMoreBefore], [afterCommentsIncoming] or [isLoadingMoreAfter])
    leaves the store as it is: no call, no new request. *)
Theorem sentinel_events_one_load_each (ts : list Turn) (s : Store) :
  Forall (fun t => is_sentinel (event t) = true) ts ->
  inflight_ok s ->
  Forall (fun s' => outstanding s' Before <= 1 /\ outstanding s' After <= 1)
         (trace ts s)
  /\ (forall p h s0,
        flag s0 beforeCommentsIncoming = true \/ isLoadingMoreBefore p = true ->
        exec (onBeginInView p h) s0 = s0)
  /\ (forall p s0,
        flag s0 afterCommentsIncoming = true \/ isLoadingMoreAfter p = true ->
        exec (onEndInView p) s0 = s0).
Proof.
  intros Hts Hs. split; [| split].
  - eapply Forall_impl; [apply trace_sentinel_inflight_ok; eassumption |].
    intros s'. apply inflight_ok_bound.
  - apply guard_set_blocks_begin.
  - apply guard_set_blocks_end.
Qed.

(** A freshly mounted component whose begin sentinel fires twice, then its
    end sentinel twice, then the begin sentinel again. *)
Lemma sentinel_events_one_load_each_witness :
  Forall (fun s' => outstanding s' Before <= 1 /\ outstanding s' After <= 1)
         (trace [turn sample_props (sample_host 0) BeginInView;
                 turn sample_props (sample_host 0) BeginInView;
                 turn sample_props (sample_host 600) EndInView;
                 turn sample_props (sample_host 600) EndInView;
                 turn sample_props (sample_host 0) BeginInView]
                (init false ∅)).
Proof.
  apply (sentinel_events_one_load_each _ (init false ∅)).
  - repeat constructor.
  - apply inflight_ok_init.
Defined.

(** The two loads of the witness run are issued, once each. *)
Example sentinel_run_log :
  log (run [turn sample_props (sample_host 0) BeginInView;
            turn sample_props (sample_host 0) BeginInView;
            turn sample_props (sample_host 600) EndInView;
            turn sample_props (sample_host 600) EndInView;
            turn sample_props (sample_host 0) BeginInView]
           (init false ∅))
  = [E_emit_LiveChatLoadBefore "s1" "u1"; E_loadMore Before;
     E_setTailing false; E_loadMore After].
Proof. reflexivity. Qed.

(** ** A failed backward load *)

Lemma settle_rejected (d : Direction) (s : Store) :
  settle d Rejected s
  = (Normal tt,
     set_outstanding (upd (outstanding s) d (Nat.pred (outstanding s d))) s).
Proof. reflexivity. Qed.

Lemma onBeginInView_issues (p : Props) (h : Host) (s : Store) (c : Element) :
  beforeHasMore p = true -> isLoadingMoreBefore p = false ->
  flag s beforeCommentsIncoming = false -> containerRef h = Some c ->
  calls (onBeginInView p h) s
  = [E_emit_LiveChatLoadBefore (story_id p) (viewerID p); E_loadMore Before]
  /\ flag (exec (onBeginInView p h) s) beforeCommentsIncoming = true.
Proof.
  intros H1 H2 H3 H4. split.
  - apply calls_app. rewrite onBeginInView_log. unfold begin_guard.
    rewrite H1, H2, H3, H4. reflexivity.
  - unfold exec, onBeginInView, read_flag, gets, bind. cbn.
    rewrite H1, H2, H3, H4. reflexivity.
Qed.

(** ** Relating the store before and after a callback

    For a preorder [R], [respects R] goes through the constructs the
    callbacks are written with. *)

Section Respects.

Variable R : Store -> Store -> Prop.
Hypothesis R_refl : forall s, R s s.
Hypothesis R_trans : forall a b c, R a b -> R b c -> R a c.

Lemma respects_ret {A : Type} (a : A) : respects R (ret a).
Proof. intros s. apply R_refl. Qed.

Lemma respects_throw {A : Type} : respects R (@throw A).
Proof. intros s. apply R_refl. Qed.

Lemma respects_gets {A : Type} (f : Store -> A) : respects R (gets f).
Proof. intros s. apply R_refl. Qed.

Lemma respects_deref {A : Type} (o : option A) : respects R (deref o).
Proof. destruct o; [apply respects_ret | apply respects_throw]. Qed.

Lemma respects_modify (f : Store -> Store) :
  (forall s, R s (f s)) -> respects R (modify f).
Proof. intros H s. apply H. Qed.

Lemma respects_bind {A B : Type} (c : M A) (k : A -> M B) :
  respects R c -> (forall a, respects R (k a)) -> respects R (bind c k).
Proof.
  intros Hc Hk s. unfold bind. specialize (Hc s).
  destruct (c s) as [[a|] s']; cbn in *; [| exact Hc].
  eapply R_trans; [exact Hc | apply Hk].
Qed.

Lemma respects_try_catch (c h : M unit) :
  respects R c -> respects R h -> respects R (try_catch c h).
Proof.
  intros Hc Hh s. unfold try_catch. specialize (Hc s).
  destruct (c s) as [[a|] s']; cbn in *; [exact Hc |].
  eapply R_trans; [exact Hc | apply Hh].
Qed.

Lemma respects_when (b : bool) (c : M unit) :
  respects R c -> respects R (when b c).
Proof. intros Hc. destruct b; [exact Hc | apply respects_ret]. Qed.

Lemma respects_exec {A : Type} (c : M A) (s : Store) :
  respects R c -> R s (exec c s).
Proof. intros Hc. apply Hc. Qed.

End Respects.

(** The callbacks written with these constructs, taken apart. *)
Ltac respects_step :=
  first
    [ apply respects_bind; [assumption .. | | intros ?]
    | apply respects_try_catch; [assumption .. | |]
    | apply respects_when; [assumption .. |]
    | apply respects_ret; assumption
    | apply respects_throw; assumption
    | apply respects_gets; assumption
    | apply respects_deref; assumption
    | match goal with
      | |- respects _ (if ?b then _ else _) => destruct b
      | |- respects _ (match ?o with _ => _ end) => destruct o
      end ].

Create HintDb callbacks.

#[local] Hint Unfold
  handle mount_effect mount_cleanup unmount
  onBeginInView onEndInView onTailingInView onScroll
  beforeCommentsChanged afterCommentsChanged paginateNewAfterComments
  maintainPrevScrollStateAndClear maintainPrevScrollState
  performTailingScroll afterTailingScroll scrollToEnd scrollToBeforeAfter
  scrollElement settle resume_after_load await
  onCommentVisible onCommentVisible_rawValue onCommentVisible_end
  serve resume onCommentSubmitted jumpToComment closeJumpToComment
  scrollToComment run_timer
  setTailing setNewComment getItem setItem await_storage loadMore call
  clearTimeout
  read_flag write_flag read_snap write_snap read_timeout write_timeout
  : callbacks.

Lemma respects_setTimeout (R : Store -> Store -> Prop) (cb : Timer) (d : Z) :
  (forall s m n, R s (set_timers m n s)) -> respects R (setTimeout cb d).
Proof. intros H s. apply H. Qed.

(** *** An in-flight flag is reset by [clearScrollState] alone *)

Lemma stays_set_refl (r : FlagRef) (s : Store) : stays_set r s s.
Proof. intros H. exact H. Qed.

Lemma stays_set_trans (r : FlagRef) (a b c : Store) :
  stays_set r a b -> stays_set r b c -> stays_set r a c.
Proof. unfold stays_set. auto. Qed.

Ltac stays_set_leaf :=
  first
    [ apply respects_setTimeout; intros s m n Hs; exact Hs
    | apply respects_modify; intros s Hs; cbn; unfold upd;
      repeat case_decide; first [exact Hs | reflexivity | discriminate] ].

Ltac stays_set_tac d :=
  destruct d; cbn [incoming]; autounfold with callbacks;
  repeat respects_step; stays_set_leaf.

Lemma run_timer_stays_set (d : Direction) (h : Host) (cb : Timer) :
  cb <> T_clearScrollState ->
  respects (stays_set (incoming d)) (run_timer h cb).
Proof.
  intros Hcb.
  assert (Hr := stays_set_refl (incoming d)).
  assert (Ht := stays_set_trans (incoming d)).
  destruct cb; try congruence; clear Hcb; stays_set_tac d.
Qed.

Lemma handle_stays_set (d : Direction) (p : Props) (h : Host) (e : Event) :
  (forall id, e <> TimerFired id) ->
  respects (stays_set (incoming d)) (handle p h e).
Proof.
  intros He.
  assert (Hr := stays_set_refl (incoming d)).
  assert (Ht := stays_set_trans (incoming d)).
  destruct e; try (exfalso; eapply He; reflexivity); clear He;
    stays_set_tac d.
Qed.

Lemma fire_unfold (h : Host) (id : positive) (s : Store) :
  fire h id s
  = match timers s !! id with
    | Some (cb, _) => bind (clearTimeout (Some id)) (fun _ => run_timer h cb) s
    | None => (Normal tt, s)
    end.
Proof.
  unfold fire, bind at 1, gets.
  destruct (timers s !! id) as [[cb dl]|]; reflexivity.
Qed.

Lemma fire_stays_set (d : Direction) (h : Host) (id : positive) (s : Store) :
  (forall delay, timers s !! id <> Some (T_clearScrollState, delay)) ->
  stays_set (incoming d) s (exec (fire h id) s).
Proof.
  intros Hno. unfold exec. rewrite fire_unfold.
  destruct (timers s !! id) as [[cb dl]|]; [| apply stays_set_refl].
  assert (Hcb : cb <> T_clearScrollState)
    by (intros ->; apply (Hno dl); reflexivity).
  apply (respects_bind (stays_set (incoming d)) (stays_set_trans _)).
  - apply respects_modify. intros s0 Hs. exact Hs.
  - intros _. now apply run_timer_stays_set.
Qed.

(** Whatever the event, props and DOM of a turn, a set in-flight flag is
    still set after it, unless the turn runs [clearScrollState]. *)
Lemma incoming_stays_set (d : Direction) (t : Turn) (s : Store) :
  ~ fires_clearScrollState (event t) s ->
  flag s (incoming d) = true ->
  flag (step t s) (incoming d) = true.
Proof.
  intros Hno. unfold step.
  destruct (event t) as [| | | | | | | | | | id | | | | | |] eqn:He;
    try (apply handle_stays_set; intros id'; discriminate).
  apply fire_stays_set. intros delay Hl. apply Hno. now exists id, delay.
Qed.

(** *** The in-flight invariant over the whole event loop *)

Lemma keeps_inflight_refl (s : Store) : keeps_inflight s s.
Proof. intros H. exact H. Qed.

Lemma keeps_inflight_trans (a b c : Store) :
  keeps_inflight a b -> keeps_inflight b c -> keeps_inflight a c.
Proof. unfold keeps_inflight. auto. Qed.

Ltac keeps_inflight_leaf :=
  first
    [ apply respects_setTimeout; intros s m n Hs; exact Hs
    | apply respects_modify; intros s Hs d; specialize (Hs d);
      destruct d; cbn in *; unfold upd in *;
      repeat case_decide; try discriminate; exact Hs ].

Lemma run_timer_keeps_inflight (h : Host) (cb : Timer) :
  cb <> T_clearScrollState -> respects keeps_inflight (run_timer h cb).
Proof.
  intros Hcb.
  assert (Hr := keeps_inflight_refl).
  assert (Ht := keeps_inflight_trans).
  destruct cb; try congruence; clear Hcb;
    autounfold with callbacks; repeat respects_step; keeps_inflight_leaf.
Qed.

Lemma settle_keeps_inflight (d : Direction) (r : Settlement) :
  respects keeps_inflight (settle d r).
Proof.
  intros s Hs d'. destruct r; cbn; specialize (Hs d');
    destruct d, d'; cbn in *; unfold upd; repeat case_decide;
    try congruence; destruct Hs as [-> | [-> Hf]]; cbn; auto.
Qed.

Lemma handle_keeps_inflight (p : Props) (h : Host) (e : Event) :
  (forall id, e <> TimerFired id) ->
  respects keeps_inflight (handle p h e).
Proof.
  intros He.
  assert (Hr := keeps_inflight_refl).
  assert (Ht := keeps_inflight_trans).
  destruct e; try (exfalso; eapply He; reflexivity); clear He.
  all: try (intros s Hs;
            first [ apply onBeginInView_inflight_ok
                  | apply onEndInView_inflight_ok ]; exact Hs).
  all: try apply settle_keeps_inflight.
  all: autounfold with callbacks; repeat respects_step; keeps_inflight_leaf.
Qed.

Lemma fire_keeps_inflight (h : Host) (id : positive) (s : Store) :
  (forall delay, timers s !! id <> Some (T_clearScrollState, delay)) ->
  keeps_inflight s (exec (fire h id) s).
Proof.
  intros Hno. unfold exec. rewrite fire_unfold.
  destruct (timers s !! id) as [[cb dl]|]; [| apply keeps_inflight_refl].
  assert (Hcb : cb <> T_clearScrollState)
    by (intros ->; apply (Hno dl); reflexivity).
  apply (respects_bind keeps_inflight keeps_inflight_trans).
  - apply respects_modify. intros s0 Hs. exact Hs.
  - intros _. now apply run_timer_keeps_inflight.
Qed.

(** Whatever the event, props and DOM of a turn, [inflight_ok] is kept
    unless the turn runs [clearScrollState]. *)
Lemma step_keeps_inflight (t : Turn) (s : Store) :
  ~ fires_clearScrollState (event t) s ->
  inflight_ok s -> inflight_ok (step t s).
Proof.
  intros Hno. unfold step.
  destruct (event t) as [| | | | | | | | | | id | | | | | |] eqn:He;
    try (apply handle_keeps_inflight; intros id'; discriminate).
  apply fire_keeps_inflight. intros delay Hl. apply Hno. now exists id, delay.
Qed.

Lemma quiet_trace_inflight_ok (ts : list Turn) :
  forall s, quiet ts s -> inflight_ok s -> Forall inflight_ok (trace ts s).
Proof.
  induction ts as [|t ts IH]; intros s Hq Hs; cbn.
  - constructor; [exact Hs | constructor].
  - destruct Hq as [Hno Hq]. constructor; [exact Hs |].
    apply IH; [exact Hq | now apply step_keeps_inflight].
Qed.

(** A component that mounts, whose sentinels fire, whose loads settle and
    whose viewer scrolls and posts: as long as [clearScrollState] has not
    run, at most one request is outstanding in each direction. *)
Lemma quiet_run_one_load_each (ts : list Turn) (tl : bool)
    (ls : gmap string CursorState) :
  quiet ts (init tl ls) ->
  Forall (fun s' => outstanding s' Before <= 1 /\ outstanding s' After <= 1)
         (trace ts (init tl ls)).
Proof.
  intros Hq.
  eapply Forall_impl;
    [apply quiet_trace_inflight_ok; [exact Hq | apply inflight_ok_init] |].
  intros s'. apply inflight_ok_bound.
Qed.

(** Over a run in which [clearScrollState] does not run, a set in-flight
    flag stays set. *)
Lemma quiet_run_stays_set (d : Direction) (ts : list Turn) :
  forall s, quiet ts s -> flag s (incoming d) = true ->
            flag (run ts s) (incoming d) = true.
Proof.
  induction ts as [|t ts IH]; intros s Hq Hf; cbn; [exact Hf |].
  destruct Hq as [Hno Hq]. apply IH; [exact Hq |].
  now apply incoming_stays_set.
Qed.

(** C1 as stated fails.  The component is mounted, the begin sentinel comes
    into view and the backward load is issued; the load is rejected.  The
    rejection is caught, but [beforeCommentsIncoming] is still set, and the
    next begin-sentinel event, with [beforeHasMore] true and nothing
    loading, calls nothing. *)
Lemma failed_load_leaves_flag_set :
  let p := sample_props in
  let h := sample_host 0 in
  let s1 := step (turn p h BeginInView) (init false ∅) in
  let s2 := step (turn p h (Settled Before Rejected)) s1 in
  log s1 = [E_emit_LiveChatLoadBefore "s1" "u1"; E_loadMore Before]
  /\ fst (handle p h (Settled Before Rejected) s1) = Normal tt
  /\ outstanding s2 Before = 0
  /\ flag s2 beforeCommentsIncoming = true
  /\ beforeHasMore p = true
  /\ isLoadingMoreBefore p = false
  /\ calls (onBeginInView p h) s2 = [].
Proof. cbv zeta. repeat split. Qed.

(** C1, amended: when the backward load issued by the begin-sentinel handler
    is rejected, the rejection is caught and ignored (the callback completes,
    and nothing but the count of outstanding requests changes), and
    [beforeCommentsIncoming] stays set: a later begin-sentinel event calls
    nothing, and no turn of the event loop resets the flag unless it runs
    [clearScrollState], so that over any run in which [clearScrollState]
    does not run the flag is still set and a begin-sentinel event still
    calls nothing.  Once [clearScrollState] has run the flag is reset,
    and a begin-sentinel event with [beforeHasMore] true and
    [isLoadingMoreBefore] false issues a new backward load. *)
Theorem failed_load_before (p : Props) (h : Host) (s0 : Store) (c : Element) :
  beforeHasMore p = true ->
  isLoadingMoreBefore p = false ->
  flag s0 beforeCommentsIncoming = false ->
  containerRef h = Some c ->
  let s1 := exec (onBeginInView p h) s0 in
  let s2 := exec (settle Before Rejected) s1 in
  let s3 := exec clearScrollState s2 in
  In (E_loadMore Before) (calls (onBeginInView p h) s0)
  /\ fst (settle Before Rejected s1) = Normal tt
  /\ (flag s2 = flag s1 /\ snap s2 = snap s1 /\ tailing s2 = tailing s1
      /\ log s2 = log s1)
  /\ flag s2 beforeCommentsIncoming = true
  /\ exec (onBeginInView p h) s2 = s2
  /\ (forall t, ~ fires_clearScrollState (event t) s2 ->
                flag (step t s2) beforeCommentsIncoming = true)
  /\ (forall ts, quiet ts s2 ->
                 flag (run ts s2) beforeCommentsIncoming = true)
  /\ (forall ts p' h', quiet ts s2 ->
                       exec (onBeginInView p' h') (run ts s2) = run ts s2)
  /\ flag s3 beforeCommentsIncoming = false
  /\ calls (onBeginInView p h) s3
     = [E_emit_LiveChatLoadBefore (story_id p) (viewerID p);
        E_loadMore Before].
Proof.
  intros H1 H2 H3 H4 s1 s2 s3.
  destruct (onBeginInView_issues p h s0 c H1 H2 H3 H4) as [Hc Hf].
  assert (Hf2 : flag s2 beforeCommentsIncoming = true) by exact Hf.
  repeat split.
  - rewrite Hc. right. left. reflexivity.
  - exact Hf2.
  - apply guard_set_blocks_begin. left. exact Hf2.
  - intros t Ht. now apply (incoming_stays_set Before).
  - intros ts Hq. now apply (quiet_run_stays_set Before).
  - intros ts p' h' Hq. apply guard_set_blocks_begin. left.
    now apply (quiet_run_stays_set Before).
  - apply (onBeginInView_issues p h s3 c H1 H2 eq_refl H4).
Qed.

(** The way out after a failed load: the before window changes for some
    other reason, [maintainPrevScrollStateAndClear] schedules
    [clearScrollState], the timer fires, and the next begin-sentinel event
    loads again. *)
Example failed_load_then_cleared :
  let p := sample_props in
  let h := sample_host 0 in
  log (run [turn p h BeginInView;
            turn p h (Settled Before Rejected);
            turn p h BeginInView;
            turn p h BeforeCommentsChanged;
            turn p h (TimerFired 1);
            turn p h BeginInView] (init false ∅))
  = [E_emit_LiveChatLoadBefore "s1" "u1"; E_loadMore Before;
     E_set_scrollTop (1000 - 1000 + 0)%Q;
     E_emit_LiveChatLoadBefore "s1" "u1"; E_loadMore Before].
Proof. reflexivity. Qed.

(** The same on a freshly mounted component over the sample DOM. *)
Lemma failed_load_before_witness :
  let p := sample_props in
  let h := sample_host 0 in
  let s2 := exec (settle Before Rejected)
                 (exec (onBeginInView p h) (init false ∅)) in
  flag s2 beforeCommentsIncoming = true
  /\ exec (onBeginInView p h) s2 = s2
  /\ In (E_loadMore Before)
        (calls (onBeginInView p h) (exec clearScrollState s2)).
Proof.
  cbv zeta.
  destruct (failed_load_before sample_props (sample_host 0) (init false ∅)
              {| scrollTop := inject_Z 0; scrollHeight := 1000;
                 offsetHeight := 400; has_scroll := true |}
              eq_refl eq_refl eq_refl eq_refl)
    as (_ & _ & _ & Hf & Hb & _ & _ & _ & _ & Hc).
  split; [exact Hf | split; [exact Hb |]].
  rewrite Hc. right. left. reflexivity.
Defined.

(** ** The persisted cursor *)

Lemma not_older_refl (D : string -> option Z) (o : option CursorState) :
  not_older D o o.
Proof. destruct o; cbn; auto. Qed.

Lemma not_older_trans (D : string -> option Z) (a b c : option CursorState) :
  not_older D a b -> not_older D b c -> not_older D a c.
Proof.
  destruct a as [ra|], b as [rb|], c as [rc|]; cbn; try tauto.
  intros H1 H2.
  destruct H1 as [-> | (x & y & Hx & Hy & Hxy)]; [exact H2 |].
  destruct H2 as [-> | (y' & z & Hy' & Hz & Hyz)]; [right; eauto 10 |].
  right. exists x, z. repeat split; auto.
  rewrite Hy in Hy'. injection Hy' as <-. lia.
Qed.

Lemma cursor_forward_refl D k (s : Store) : cursor_forward D k s s.
Proof. apply not_older_refl. Qed.

Lemma cursor_forward_trans D k (a b c : Store) :
  cursor_forward D k a b -> cursor_forward D k b c -> cursor_forward D k a c.
Proof. apply not_older_trans. Qed.

Lemma overwrites_spec (h : Host) (created : string)
    (current : option CursorState) :
  overwrites h created current = true
  <-> current = None
      \/ exists old x y,
           current = Some old
           /\ Date_valueOf h (createdAt old) = Some x
           /\ Date_valueOf h created = Some y
           /\ (x < y)%Z.
Proof.
  destruct current as [old|]; cbn.
  - rewrite date_gt_spec. split.
    + intros (y & x & Hy & Hx & Hlt). right. exists old, x, y. auto.
    + intros [E | (old' & x & y & E & Hx & Hy & Hlt)]; [discriminate |].
      injection E as <-. exists y, x. auto.
  - split; auto.
Qed.

Lemma onCommentVisible_exec (p : Props) (visible : bool)
    (id created cur : string) (s : Store) :
  onCommentVisible p visible id created cur s
  = (Normal tt,
     set_awaited
       (<[next_awaited s :=
            {| request := R_getItem (cursorKey p); result := None;
               frame := {| f_id := id; f_createdAt := created;
                           f_cursor := cur; f_key := cursorKey p;
                           f_newComment := newComment s |} |}]>
          (awaited s))
       (Pos.succ (next_awaited s))
       (add_log (E_getItem (cursorKey p)) s)).
Proof. reflexivity. Qed.

Lemma serve_exec (a : positive) (s : Store) :
  serve a s
  = (Normal tt,
     match awaited s !! a with
     | None => s
     | Some w =>
         match result w with
         | Some _ => s
         | None =>
             match request w with
             | R_getItem key =>
                 set_awaited
                   (<[a := {| request := request w;
                              result := Some (localStorage s !! key);
                              frame := frame w |}]> (awaited s))
                   (next_awaited s) s
             | R_setItem key value =>
                 set_awaited
                   (<[a := {| request := request w; result := Some None;
                              frame := frame w |}]> (awaited s))
                   (next_awaited s)
                   (set_localStorage (<[key := value]> (localStorage s)) s)
             end
         end
     end).
Proof.
  unfold serve, bind at 1, gets at 1.
  destruct (awaited s !! a) as [w|]; [| reflexivity].
  destruct (result w); [reflexivity |].
  destruct (request w); reflexivity.
Qed.

Lemma setItem_exec (key : string) (value : CursorState) (f : Frame)
    (s : Store) :
  setItem key value f s
  = (Normal tt,
     set_awaited
       (<[next_awaited s :=
            {| request := R_setItem key value; result := None;
               frame := f |}]> (awaited s))
       (Pos.succ (next_awaited s))
       (add_log (E_setItem key value) s)).
Proof. reflexivity. Qed.

Lemma onCommentVisible_end_exec (f : Frame) (s : Store) :
  onCommentVisible_end f s
  = (Normal tt,
     if hides f
     then set_newComment None (add_log (E_setNewComment None) s)
     else s).
Proof.
  unfold onCommentVisible_end, hides.
  destruct (f_newComment f) as [n|]; [| reflexivity].
  destruct (String.eqb (nc_id n) (f_id f)); reflexivity.
Qed.

Lemma onCommentVisible_rawValue_exec (h : Host) (f : Frame)
    (rawValue : option CursorState) (s : Store) :
  onCommentVisible_rawValue h f rawValue s
  = if overwrites h (f_createdAt f) rawValue
    then setItem (f_key f) (seen (f_createdAt f) (f_cursor f)) f s
    else onCommentVisible_end f s.
Proof.
  unfold onCommentVisible_rawValue, overwrites, newer.
  destruct rawValue as [old|]; cbn; [| reflexivity].
  destruct (date_gt _ _); reflexivity.
Qed.

Lemma resume_exec (h : Host) (a : positive) (r : Settlement) (s : Store) :
  resume h a r s
  = match awaited s !! a with
    | None => (Normal tt, s)
    | Some w =>
        let s' := set_awaited (delete a (awaited s)) (next_awaited s) s in
        match r with
        | Rejected => (Throw, s')
        | Fulfilled =>
            match result w with
            | None => (Normal tt, s)
            | Some v =>
                match request w with
                | R_getItem _ => onCommentVisible_rawValue h (frame w) v s'
                | R_setItem _ _ => onCommentVisible_end (frame w) s'
                end
            end
        end
    end.
Proof.
  unfold resume, bind at 1, gets at 1.
  destruct (awaited s !! a) as [w|]; [| reflexivity].
  destruct r; [| reflexivity].
  destruct (result w); [| reflexivity].
  destruct (request w); reflexivity.
Qed.

(** *** What touches the storage *)

#[local] Hint Unfold fire : callbacks.

Lemma same_storage_refl (s : Store) : same_storage s s.
Proof. repeat split. Qed.

Lemma same_storage_trans (a b c : Store) :
  same_storage a b -> same_storage b c -> same_storage a c.
Proof.
  intros (H1 & H2 & H3) (H4 & H5 & H6). repeat split; congruence.
Qed.

Ltac same_storage_leaf :=
  first
    [ apply respects_setTimeout; intros; split; [| split]; reflexivity
    | apply respects_modify; intros; split; [| split]; reflexivity ].

(** Every event but a call of [onCommentVisible], the storage carrying a
    request out and a promise of the storage settling leaves the storage
    and its promises alone. *)
Lemma handle_same_storage (p : Props) (h : Host) (e : Event) :
  is_storage_event e = false -> respects same_storage (handle p h e).
Proof.
  intros He.
  assert (Hr := same_storage_refl).
  assert (Ht := same_storage_trans).
  destruct e; try discriminate He; clear He;
    repeat first [respects_step | progress autounfold with callbacks];
    same_storage_leaf.
Qed.

(** *** One call at a time *)

Lemma one_call_same_storage D (s s' : Store) :
  same_storage s s' -> one_call D s -> one_call D s'.
Proof.
  intros (Ha & _ & Hl) [E | (a & w & E & Hc)].
  - left. congruence.
  - right. exists a, w. split; [congruence |].
    unfold consistent in *. rewrite Hl. exact Hc.
Qed.

Lemma overwrites_not_older D (h : Host) (created cur : string)
    (current : option CursorState) :
  (forall d, Date_valueOf h d = D d) ->
  overwrites h created current = true ->
  not_older D current (Some (seen created cur)).
Proof.
  intros HD Ho. destruct current as [old|]; cbn in *; [| exact I].
  right. apply date_gt_spec in Ho as (x & y & Hx & Hy & Hlt).
  exists y, x. rewrite <- !HD. auto.
Qed.

(** A turn of a serial run: the invariant is kept and no record goes
    back. *)
Lemma step_one_call D (t : Turn) (s : Store) :
  (forall d, Date_valueOf (host t) d = D d) ->
  (is_visible (event t) = true -> awaited s = ∅) ->
  one_call D s ->
  one_call D (step t s) /\ forall k, cursor_forward D k s (step t s).
Proof.
  destruct t as [p h e]. unfold step, cursor_forward. cbn [props host event].
  intros HD Hvis H1.
  destruct (is_storage_event e) eqn:He.
  2: { pose proof (handle_same_storage p h e He s) as Hs. split.
       - eapply one_call_same_storage; eauto.
       - intros k. destruct Hs as (_ & _ & Hl). unfold exec. rewrite Hl.
         apply not_older_refl. }
  destruct e; try discriminate He; clear He; cbn [handle]; unfold exec.
  - (* the call *)
    rewrite onCommentVisible_exec. cbn. rewrite (Hvis eq_refl). split.
    + right. eexists _, _. split; [apply insert_empty | reflexivity].
    + intros k. apply not_older_refl.
  - (* the storage carries a request out *)
    rewrite serve_exec. cbn [snd].
    destruct H1 as [E | (a0 & w & E & Hc)].
    { rewrite E, lookup_empty. split; [now left | intros; apply not_older_refl]. }
    rewrite E. destruct (decide (a0 = a)) as [-> | Hne].
    2: { rewrite lookup_singleton_ne by exact Hne.
         split; [right; eauto | intros; apply not_older_refl]. }
    rewrite lookup_singleton_eq.
    destruct (result w) as [v|] eqn:Er.
    { split; [right; eauto | intros; apply not_older_refl]. }
    unfold consistent in Hc. rewrite Er in Hc.
    destruct (request w) as [key | key value] eqn:Eq.
    + split; [| intros; apply not_older_refl].
      right. eexists a, _. split; [apply insert_singleton_eq |].
      unfold consistent. cbn. auto.
    + split.
      * right. eexists a, _. split; [apply insert_singleton_eq |].
        unfold consistent. cbn. exact I.
      * intros k. cbn. destruct (decide (key = k)) as [<- | Hk].
        -- rewrite lookup_insert_eq. exact Hc.
        -- rewrite lookup_insert_ne by exact Hk. apply not_older_refl.
  - (* a promise settles *)
    rewrite resume_exec.
    destruct H1 as [E | (a0 & w & E & Hc)].
    { rewrite E, lookup_empty. split; [now left | intros; apply not_older_refl]. }
    rewrite E. destruct (decide (a0 = a)) as [-> | Hne].
    2: { rewrite lookup_singleton_ne by exact Hne.
         split; [right; eauto | intros; apply not_older_refl]. }
    rewrite lookup_singleton_eq. cbv zeta. rewrite delete_singleton_eq.
    destruct r.
    2: { split; [now left | intros; apply not_older_refl]. }
    destruct (result w) as [v|] eqn:Er.
    2: { split; [right; exists a, w; auto | intros; apply not_older_refl]. }
    unfold consistent in Hc. rewrite Er in Hc.
    assert (Hend : forall f s0,
               awaited s0 = ∅ ->
               localStorage s0 = localStorage s ->
               one_call D (snd (onCommentVisible_end f s0))
               /\ forall k, not_older D (localStorage s !! k)
                              (localStorage (snd (onCommentVisible_end f s0))
                                 !! k)).
    { intros f s0 E0 L0. rewrite onCommentVisible_end_exec. cbn [snd].
      destruct (hides f); cbn; rewrite ?L0;
        (split; [now left | intros; apply not_older_refl]). }
    destruct (request w) as [key | key value] eqn:Eq.
    + destruct Hc as [Hk ->]. rewrite onCommentVisible_rawValue_exec.
      destruct (overwrites h _ _) eqn:Ho; [| now apply Hend].
      rewrite setItem_exec. cbn. split; [| intros; apply not_older_refl].
      right. eexists _, _. split; [apply insert_empty |].
      unfold consistent. cbn. rewrite Hk.
      now apply (overwrites_not_older D h).
    + now apply Hend.
Qed.

Lemma run_app (ts1 ts2 : list Turn) (s : Store) :
  run (ts1 ++ ts2) s = run ts2 (run ts1 s).
Proof. apply fold_left_app. Qed.

Lemma serial_app (ts1 ts2 : list Turn) :
  forall s, serial (ts1 ++ ts2) s <-> serial ts1 s /\ serial ts2 (run ts1 s).
Proof.
  induction ts1 as [|t ts1 IH]; intros s; cbn.
  - tauto.
  - rewrite IH. tauto.
Qed.

Lemma serial_run D (ts : list Turn) :
  Forall (fun t => forall d, Date_valueOf (host t) d = D d) ts ->
  forall s, serial ts s -> one_call D s ->
    one_call D (run ts s) /\ forall k, cursor_forward D k s (run ts s).
Proof.
  induction 1 as [|t ts Ht _ IH]; intros s Hser H1; cbn.
  - split; [exact H1 | intros; apply cursor_forward_refl].
  - destruct Hser as [Hvis Hser].
    destruct (step_one_call D t s Ht Hvis H1) as [H2 Hf].
    destruct (IH _ Hser H2) as [H3 Hf']. split; [exact H3 |].
    intros k. eapply cursor_forward_trans; [apply Hf | apply Hf'].
Qed.

(** *** Who calls [setItem] *)

Lemma no_setItem_refl (s : Store) : no_setItem s s.
Proof. exists []. split; [now rewrite app_nil_r | intros k v []]. Qed.

Lemma no_setItem_trans (a b c : Store) :
  no_setItem a b -> no_setItem b c -> no_setItem a c.
Proof.
  intros (e1 & L1 & N1) (e2 & L2 & N2). exists (e1 ++ e2). split.
  - rewrite L2, L1. now rewrite app_assoc.
  - intros k v Hin. apply in_app_or in Hin as [Hin | Hin];
      [exact (N1 k v Hin) | exact (N2 k v Hin)].
Qed.

Ltac no_setItem_leaf :=
  first
    [ apply respects_setTimeout; intros; exists [];
      split; [cbn; now rewrite app_nil_r | intros ? ? []]
    | apply respects_modify; intros;
      first [ exists []; split; [cbn; now rewrite app_nil_r | intros ? ? []]
            | eexists [_]; split;
              [reflexivity | intros ? ? [E | []]; discriminate E] ] ].

Lemma handle_no_setItem (p : Props) (h : Host) (e : Event) :
  (forall a r, e <> Resumed a r) -> respects no_setItem (handle p h e).
Proof.
  intros He.
  assert (Hr := no_setItem_refl).
  assert (Ht := no_setItem_trans).
  destruct e; try (exfalso; eapply He; reflexivity); clear He;
    repeat first [respects_step | progress autounfold with callbacks];
    no_setItem_leaf.
Qed.

Lemma resume_log (h : Host) (a : positive) (r : Settlement) (s : Store) :
  log (exec (resume h a r) s)
  = log s
    ++ match awaited s !! a with
       | None => []
       | Some w =>
           match r, result w, request w with
           | Fulfilled, Some v, R_getItem _ =>
               if overwrites h (f_createdAt (frame w)) v
               then [E_setItem (f_key (frame w))
                       (seen (f_createdAt (frame w)) (f_cursor (frame w)))]
               else if hides (frame w) then [E_setNewComment None] else []
           | Fulfilled, Some _, R_setItem _ _ =>
               if hides (frame w) then [E_setNewComment None] else []
           | _, _, _ => []
           end
       end.
Proof.
  unfold exec. rewrite resume_exec.
  destruct (awaited s !! a) as [w|]; cbn; [| now rewrite app_nil_r].
  destruct r; cbn; [| now rewrite app_nil_r].
  destruct (result w) as [v|]; cbn; [| now rewrite app_nil_r].
  destruct (request w) as [key | key value].
  - rewrite onCommentVisible_rawValue_exec.
    destruct (overwrites h _ v); [reflexivity |].
    rewrite onCommentVisible_end_exec.
    destruct (hides (frame w)); cbn; [reflexivity | now rewrite app_nil_r].
  - rewrite onCommentVisible_end_exec.
    destruct (hides (frame w)); cbn; [reflexivity | now rewrite app_nil_r].
Qed.

(** [setItem] is called by a call of [onCommentVisible] that goes on from
    the value of its [getItem], and by nothing else. *)
Lemma setItem_called (p : Props) (h : Host) (e : Event) (s : Store)
    (k : string) (v : CursorState) :
  In (E_setItem k v) (calls (handle p h e) s)
  <-> exists a w key rawValue,
        e = Resumed a Fulfilled
        /\ awaited s !! a = Some w
        /\ request w = R_getItem key
        /\ result w = Some rawValue
        /\ k = f_key (frame w)
        /\ v = seen (f_createdAt (frame w)) (f_cursor (frame w))
        /\ overwrites h (f_createdAt (frame w)) rawValue = true.
Proof.
  split.
  - intros Hin.
    assert (Hno : forall e',
               (forall a r, e' <> Resumed a r) ->
               ~ In (E_setItem k v) (calls (handle p h e') s)).
    { intros e' He' Hin'.
      destruct (handle_no_setItem p h e' He' s) as (es & L & N).
      rewrite (calls_app _ _ _ L) in Hin'. exact (N _ _ Hin'). }
    destruct e as [| | | | | | | | | | | | | a r | | |];
      try (exfalso; refine (Hno _ _ Hin); intros; discriminate).
    clear Hno. cbn [handle] in Hin.
    rewrite (calls_app _ _ _ (resume_log h a r s)) in Hin.
    destruct (awaited s !! a) as [w|] eqn:Hl; [| destruct Hin].
    destruct r; [| destruct Hin].
    destruct (result w) as [raw|] eqn:Hr; [| destruct Hin].
    destruct (request w) as [key | key value] eqn:Hq.
    + destruct (overwrites h _ raw) eqn:Ho.
      * destruct Hin as [E | []]. injection E as <- <-.
        exists a, w, key, raw. auto 10.
      * destruct (hides (frame w)); [destruct Hin as [E | []] | destruct Hin].
        discriminate E.
    + destruct (hides (frame w)); [destruct Hin as [E | []] | destruct Hin].
      discriminate E.
  - intros (a & w & key & raw & -> & Hl & Hq & Hr & -> & -> & Ho).
    cbn [handle]. rewrite (calls_app _ _ _ (resume_log h a Fulfilled s)).
    rewrite Hl, Hr, Hq, Ho. left. reflexivity.
Qed.

(** The record under a key changes in a turn only when the storage
    carries out a write under that key. *)
Lemma record_changed (t : Turn) (s : Store) (k : string) :
  localStorage (step t s) !! k <> localStorage s !! k ->
  exists a w value,
    event t = Served a
    /\ awaited s !! a = Some w
    /\ request w = R_setItem k value
    /\ result w = None
    /\ localStorage (step t s) !! k = Some value.
Proof.
  destruct t as [p h e]. unfold step. cbn [props host event]. intros Hne.
  destruct (is_storage_event e) eqn:He.
  2: { destruct (handle_same_storage p h e He s) as (_ & _ & Hl).
       exfalso. apply Hne. unfold exec. now rewrite Hl. }
  destruct e; try discriminate He; clear He; cbn [handle] in *;
    unfold exec in *.
  - exfalso. apply Hne. rewrite onCommentVisible_exec. reflexivity.
  - rewrite serve_exec in *. cbn [snd] in *.
    destruct (awaited s !! a) as [w|] eqn:Hl; [| now destruct Hne].
    destruct (result w) as [v|] eqn:Hr; [now destruct Hne |].
    destruct (request w) as [key | key value] eqn:Hq; [now destruct Hne |].
    cbn in *. destruct (decide (key = k)) as [-> | Hk].
    + exists a, w, value. rewrite lookup_insert_eq. auto.
    + rewrite lookup_insert_ne in Hne by exact Hk. now destruct Hne.
  - exfalso. apply Hne. rewrite resume_exec.
    destruct (awaited s !! a) as [w|]; [| reflexivity].
    destruct r; [| reflexivity].
    destruct (result w) as [v|]; [| reflexivity].
    cbv zeta.
    destruct (request w);
      rewrite ?onCommentVisible_rawValue_exec, ?setItem_exec,
        ?onCommentVisible_end_exec;
      repeat match goal with |- context [if ?b then _ else _] =>
               destruct b end; reflexivity.
Qed.

(** C3 as stated fails.  The storage holds the record of the comment of
    10:00.  The comments of 10:10 and of 10:05 come into view in one burst:
    both callbacks call [getItem] and both reads give the record of 10:00,
    so both callbacks call [setItem].  The write of 10:10 is carried out
    first and the write of 10:05 second: the record is overwritten by one
    whose [createdAt] is older than the stored one, and the stored
    [createdAt] goes back. *)
Lemma interleaved_callbacks_record_goes_back :
  let D := Date_valueOf (sample_host 0) in
  let k := cursorKey sample_props in
  let s0 := init false sample_storage in
  let s7 := run (take 7 sample_burst) s0 in
  let s8 := run (take 8 sample_burst) s0 in
  localStorage s0 !! k = Some (seen "2021-03-01T10:00:00.000Z" "cursor1")
  /\ log s8
     = [E_getItem k; E_getItem k;
        E_setItem k (seen "2021-03-01T10:10:00.000Z" "cursor3");
        E_setItem k (seen "2021-03-01T10:05:00.000Z" "cursor2")]
  /\ localStorage s7 !! k = Some (seen "2021-03-01T10:10:00.000Z" "cursor3")
  /\ localStorage s8 !! k = Some (seen "2021-03-01T10:05:00.000Z" "cursor2")
  /\ localStorage (run sample_burst s0) !! k
     = Some (seen "2021-03-01T10:05:00.000Z" "cursor2")
  /\ D "2021-03-01T10:05:00.000Z" = Some 1614593100000%Z
  /\ D "2021-03-01T10:10:00.000Z" = Some 1614593400000%Z
  /\ ~ not_older D (localStorage s7 !! k) (localStorage s8 !! k).
Proof.
  cbv zeta.
  assert (E7 : localStorage (run (take 7 sample_burst)
                               (init false sample_storage))
                 !! cursorKey sample_props
               = Some (seen "2021-03-01T10:10:00.000Z" "cursor3"))
    by (vm_compute; reflexivity).
  assert (E8 : localStorage (run (take 8 sample_burst)
                               (init false sample_storage))
                 !! cursorKey sample_props
               = Some (seen "2021-03-01T10:05:00.000Z" "cursor2"))
    by (vm_compute; reflexivity).
  split; [vm_compute; reflexivity |].
  split; [vm_compute; reflexivity |].
  split; [exact E7 |]. split; [exact E8 |].
  split; [vm_compute; reflexivity |].
  split; [reflexivity |]. split; [reflexivity |].
  rewrite E7, E8. intros [E | (x & y & Hx & Hy & Hlt)]; [discriminate E |].
  vm_compute in Hx, Hy. injection Hx as <-. injection Hy as <-.
  discriminate Hlt.
Qed.

(** C3, amended: [setItem] is called by a visibility callback that goes
    on from the value of its [getItem], with the key and the [createdAt]
    and cursor of that callback, exactly when the record it read is absent
    or has a strictly older [createdAt], and by nothing else; the read
    gives the record stored when the storage carries it out; and the
    record under a key changes only when the storage carries out a write
    under that key.  When visibility callbacks run one at a time (a call
    is made only when no storage promise of an earlier call is awaited),
    then whatever the other events of the run, the record under a key
    never goes back: from any point of the run to any later one it is the
    same record or one whose [createdAt] is strictly greater. *)
Theorem persisted_cursor_monotone (D : string -> option Z) (k : string)
    (ts1 ts2 : list Turn) (s : Store) :
  awaited s = ∅ ->
  Forall (fun t => forall d, Date_valueOf (host t) d = D d) (ts1 ++ ts2) ->
  serial (ts1 ++ ts2) s ->
  (forall p h e s0 k' v,
     In (E_setItem k' v) (calls (handle p h e) s0)
     <-> exists a w key rawValue,
           e = Resumed a Fulfilled
           /\ awaited s0 !! a = Some w
           /\ request w = R_getItem key
           /\ result w = Some rawValue
           /\ k' = f_key (frame w)
           /\ v = seen (f_createdAt (frame w)) (f_cursor (frame w))
           /\ (rawValue = None
               \/ exists old x y,
                    rawValue = Some old
                    /\ Date_valueOf h (createdAt old) = Some x
                    /\ Date_valueOf h (f_createdAt (frame w)) = Some y
                    /\ (x < y)%Z))
  /\ (forall p visible id created cur s0,
        awaited (exec (onCommentVisible p visible id created cur) s0)
          !! next_awaited s0
        = Some {| request := R_getItem (cursorKey p); result := None;
                  frame := {| f_id := id; f_createdAt := created;
                              f_cursor := cur; f_key := cursorKey p;
                              f_newComment := newComment s0 |} |})
  /\ (forall a w key s0,
        awaited s0 !! a = Some w ->
        request w = R_getItem key ->
        result w = None ->
        localStorage (exec (serve a) s0) = localStorage s0
        /\ awaited (exec (serve a) s0) !! a
           = Some {| request := R_getItem key;
                     result := Some (localStorage s0 !! key);
                     frame := frame w |})
  /\ (forall t s0,
        localStorage (step t s0) !! k <> localStorage s0 !! k ->
        exists a w value,
          event t = Served a
          /\ awaited s0 !! a = Some w
          /\ request w = R_setItem k value
          /\ result w = None
          /\ localStorage (step t s0) !! k = Some value)
  /\ not_older D (localStorage (run ts1 s) !! k)
       (localStorage (run (ts1 ++ ts2) s) !! k).
Proof.
  intros He HD Hser. split; [| split; [| split; [| split]]].
  - intros p h e s0 k' v. rewrite setItem_called.
    split; intros (a & w & key & raw & H1 & H2 & H3 & H4 & H5 & H6 & H7);
      exists a, w, key, raw; repeat (split; [assumption |]);
      now apply overwrites_spec.
  - intros p visible id created cur s0. unfold exec.
    rewrite onCommentVisible_exec. apply lookup_insert_eq.
  - intros a w key s0 Hl Hq Hr. unfold exec. rewrite serve_exec, Hl, Hr, Hq.
    split; [reflexivity | apply lookup_insert_eq].
  - intros t s0. apply record_changed.
  - apply Forall_app in HD as [HD1 HD2].
    apply serial_app in Hser as [Hs1 Hs2].
    destruct (serial_run D ts1 HD1 s Hs1 (or_introl He)) as [H1 _].
    destruct (serial_run D ts2 HD2 _ Hs2 H1) as [_ Hf].
    rewrite run_app. apply Hf.
Qed.

(** The three callbacks of [sample_visible], over the record of 10:00:
    from the end of the first callback to the end of the run the record
    goes from the comment of 10:05 to that of 10:10. *)
Lemma persisted_cursor_monotone_witness :
  let D := Date_valueOf (sample_host 0) in
  let k := cursorKey sample_props in
  let s := init false sample_storage in
  localStorage (run (take 5 sample_visible) s) !! k
  = Some (seen "2021-03-01T10:05:00.000Z" "cursor2")
  /\ localStorage (run (take 5 sample_visible ++ drop 5 sample_visible) s)
       !! k
     = Some (seen "2021-03-01T10:10:00.000Z" "cursor3")
  /\ not_older D
       (localStorage (run (take 5 sample_visible) s) !! k)
       (localStorage (run (take 5 sample_visible ++ drop 5 sample_visible) s)
          !! k).
Proof.
  intros D k s.
  split; [vm_compute; reflexivity |]. split; [vm_compute; reflexivity |].
  apply (persisted_cursor_monotone D k (take 5 sample_visible)
           (drop 5 sample_visible) s eq_refl).
  - repeat constructor.
  - vm_compute.
    repeat (split; [intros H; first [discriminate H | reflexivity] |]).
    exact I.
Defined.

Example sample_visible_log :
  log (run sample_visible (init false sample_storage))
  = [E_getItem "liveCursor:s1:http://localhost/s1";
     E_setItem "liveCursor:s1:http://localhost/s1"
       (seen "2021-03-01T10:05:00.000Z" "cursor2");
     E_getItem "liveCursor:s1:http://localhost/s1";
     E_getItem "liveCursor:s1:http://localhost/s1";
     E_setItem "liveCursor:s1:http://localhost/s1"
       (seen "2021-03-01T10:10:00.000Z" "cursor3")]
  /\ localStorage (run sample_visible (init false sample_storage))
       !! "liveCursor:s1:http://localhost/s1"
     = Some (seen "2021-03-01T10:10:00.000Z" "cursor3").
Proof. split; vm_compute; reflexivity. Qed.

(** ** The scroll handler *)

Lemma atBottom_spec (c : Element) :
  atBottom c = true
  <-> (Qabs (scrollTop c - (scrollHeight c - offsetHeight c)) < 5)%Q.
Proof. apply Qltb_lt. Qed.

Lemma onScroll_mounted (p : Props) (h : Host) (s : Store) (c : Element)
    (b : unit) :
  containerRef h = Some c -> beginRef h = Some b ->
  exec (onScroll p h) s
  = exec (setTailing (atBottom c && negb (afterHasMore p))) s.
Proof.
  intros Hc Hb. unfold exec, onScroll. rewrite Hc, Hb. reflexivity.
Qed.

Lemma setTailing_exec (v : bool) (s : Store) :
  tailing (exec (setTailing v) s) = v
  /\ log (exec (setTailing v) s) = log s ++ [E_setTailing v]
  /\ flag (exec (setTailing v) s) = flag s.
Proof. repeat split. Qed.

(** C5 as stated fails.  The component mounted without a cursor and its
    warm-up timer has fired: scrolling is enabled and the viewer is tailing.
    More forward data shows up ([afterHasMore] true) and the viewer scrolls
    to the top, 600px from the bottom.  It is the scroll handler itself
    that calls [setTailing(false)], and tailing goes from true to false. *)
Lemma onScroll_sets_tailing_false :
  let p := sample_props in
  let h := sample_host 0 in
  let s := run [turn p (sample_host 600) Mounted;
                turn p (sample_host 600) (TimerFired 1)] (init false ∅) in
  afterHasMore p = true
  /\ option_map atBottom (containerRef h) = Some false
  /\ flag s scrollEnabled = true
  /\ tailing s = true
  /\ calls (onScroll p h) s = [E_setTailing false]
  /\ tailing (exec (onScroll p h) s) = false.
Proof. cbv zeta. repeat split. Qed.

(** C5, amended: on every scroll event over a mounted container and begin
    marker, with scrolling enabled, the scroll handler calls [setTailing]
    once, with the value "at the bottom and no more forward data", where at
    the bottom means [|scrollTop - (scrollHeight - offsetHeight)| < 5].  So
    tailing becomes true within 5px of the bottom when [afterHasMore] is
    false, and is set to false, by the scroll handler itself, at the bottom
    when [afterHasMore] is true and at any other scroll position. *)
Theorem onScroll_sets_tailing (p : Props) (h : Host) (s : Store)
    (c : Element) (b : unit) :
  containerRef h = Some c ->
  beginRef h = Some b ->
  flag s scrollEnabled = true ->
  (atBottom c = true
   <-> (Qabs (scrollTop c - (scrollHeight c - offsetHeight c)) < 5)%Q)
  /\ calls (onScroll p h) s
     = [E_setTailing (atBottom c && negb (afterHasMore p))]
  /\ tailing (exec (onScroll p h) s) = atBottom c && negb (afterHasMore p)
  /\ (tailing (exec (onScroll p h) s) = true
      <-> atBottom c = true /\ afterHasMore p = false).
Proof.
  intros Hc Hb _. rewrite (onScroll_mounted p h s c b Hc Hb).
  destruct (setTailing_exec (atBottom c && negb (afterHasMore p)) s)
    as (Ht & Hl & _).
  split; [apply atBottom_spec | split; [| split]].
  - apply calls_app. rewrite onScroll_mounted with (c := c) (b := b) by auto.
    exact Hl.
  - exact Ht.
  - rewrite Ht, andb_true_iff, negb_true_iff. reflexivity.
Qed.

(** After a resumed mount and its warm-up (tailing is off), with nothing
    more to load, the viewer scrolls to 598px, 2px from the bottom:
    tailing turns on. *)
Lemma onScroll_sets_tailing_witness :
  let p := {| beforeHasMore := true; isLoadingMoreBefore := false;
              afterHasMore := false; isLoadingMoreAfter := false;
              viewer := None; story_id := "s1"; cursorSet := Some true;
              storyID := "s1"; storyURL := "http://localhost/s1" |} in
  let s := run [turn p (sample_host 300) Mounted;
                turn p (sample_host 300) (TimerFired 1)] (init false ∅) in
  tailing s = false
  /\ tailing (exec (onScroll p (sample_host 598)) s) = true.
Proof.
  intros p s. split; [reflexivity |].
  apply (onScroll_sets_tailing p (sample_host 598) s
           {| scrollTop := inject_Z 598; scrollHeight := 1000;
              offsetHeight := 400; has_scroll := true |} tt
           eq_refl eq_refl eq_refl).
  split; reflexivity.
Defined.

(** *** The warm-up window *)

Lemma onScroll_ignores_scrollEnabled (p : Props) (h : Host) (s : Store)
    (v : bool) :
  exec (onScroll p h) (set_flag scrollEnabled v s)
  = set_flag scrollEnabled v (exec (onScroll p h) s).
Proof.
  unfold exec, onScroll.
  destruct (containerRef h) as [c|], (beginRef h) as [b|]; reflexivity.
Qed.

(** C7 at the failing input.  The component mounts without a cursor: it
    scrolls to the end, turns tailing on and schedules, 300ms ahead, the
    timer that sets [scrollEnabled.current].  A scroll event arrives before
    the timer fires, with the container 600px from the bottom:
    [scrollEnabled.current] is false and the timer is pending, and yet the
    scroll handler acts, calling [setTailing(false)]. *)
Theorem onScroll_acts_during_warmup :
  let p := sample_props in
  let h := sample_host 0 in
  let s1 := step (turn p h Mounted) (init false ∅) in
  let s2 := step (turn p h Scrolled) s1 in
  flag s1 scrollEnabled = false
  /\ timers s1 !! 1%positive = Some (T_enableScroll, 300%Z)
  /\ tailing s1 = true
  /\ calls (onScroll p h) s1 = [E_setTailing false]
  /\ tailing s2 = false
  /\ flag s2 scrollEnabled = false.
Proof. cbv zeta. repeat split. Qed.

(** ** The mount effect *)

Lemma mount_effect_fresh (p : Props) (h : Host) (tl : bool)
    (ls : gmap string CursorState) (c : Element) (m : unit) :
  containerRef h = Some c -> beforeAfterRef h = Some m ->
  let s' := exec (mount_effect p h) (init tl ls) in
  tailing s' = (if truthy_optbool (cursorSet p) then tl else true)
  /\ log s'
     = (if truthy_optbool (cursorSet p)
        then [E_scrollIntoView_beforeAfter None]
        else (if has_scroll c
              then [E_scroll {| left := Some 0%Q;
                                top := Some (scrollHeight c);
                                behavior := None |}]
              else [E_set_scrollLeft 0; E_set_scrollTop (scrollHeight c)])
             ++ [E_setTailing true])
  /\ flag s' scrollEnabled = false
  /\ timers s' !! 1%positive = Some (T_enableScroll, 300%Z).
Proof.
  intros Hc Hm. cbv zeta.
  unfold exec, mount_effect, scrollToBeforeAfter, scrollToEnd,
    scrollElement.
  rewrite Hc, Hm.
  destruct (truthy_optbool (cursorSet p)); [repeat split |].
  destruct (has_scroll c) eqn:Hs; unfold bind, ret; cbn; rewrite Hs;
    repeat split.
Qed.

(** C6 as stated fails.  The local record outlives the component; the
    container mounts with a resume cursor ([cursorSet] true) while the
    record holds [tailing = true].  The mount effect scrolls to the
    before/after marker and does not write [tailing]: it is still true. *)
Lemma mount_with_cursor_keeps_tailing :
  let h := sample_host 0 in
  let s := step (turn resume_props h Mounted) (init true ∅) in
  truthy_optbool (cursorSet resume_props) = true
  /\ log s = [E_scrollIntoView_beforeAfter None]
  /\ tailing s = true.
Proof. cbv zeta. repeat split. Qed.

(** C6, amended: the mount effect of a freshly mounted container, over a
    mounted DOM, sets tailing to true when no resume cursor is supplied
    ([cursorSet] absent or false), after scrolling to the bottom; when a
    resume cursor is supplied it scrolls to the before/after marker and
    calls nothing else, so tailing is what the local record held before the
    mount (false when the record held false). *)
Theorem mount_effect_tailing (p : Props) (h : Host) (tl : bool)
    (ls : gmap string CursorState) (c : Element) (m : unit) :
  containerRef h = Some c ->
  beforeAfterRef h = Some m ->
  let s' := step (turn p h Mounted) (init tl ls) in
  tailing s' = (if truthy_optbool (cursorSet p) then tl else true)
  /\ log s'
     = (if truthy_optbool (cursorSet p)
        then [E_scrollIntoView_beforeAfter None]
        else (if has_scroll c
              then [E_scroll {| left := Some 0%Q;
                                top := Some (scrollHeight c);
                                behavior := None |}]
              else [E_set_scrollLeft 0; E_set_scrollTop (scrollHeight c)])
             ++ [E_setTailing true]).
Proof.
  intros Hc Hm s'.
  destruct (mount_effect_fresh p h tl ls c m Hc Hm) as (Ht & Hl & _).
  split; [exact Ht | exact Hl].
Qed.

(** A first mount over a local record holding [tailing = false], without
    and with a resume cursor. *)
Lemma mount_effect_tailing_witness :
  tailing (step (turn sample_props (sample_host 0) Mounted) (init false ∅))
  = true
  /\ tailing (step (turn resume_props (sample_host 0) Mounted)
                   (init false ∅))
     = false.
Proof.
  split.
  - exact (proj1 (mount_effect_tailing sample_props (sample_host 0) false ∅
                    {| scrollTop := inject_Z 0; scrollHeight := 1000;
                       offsetHeight := 400; has_scroll := true |} tt
                    eq_refl eq_refl)).
  - exact (proj1 (mount_effect_tailing resume_props (sample_host 0) false ∅
                    {| scrollTop := inject_Z 0; scrollHeight := 1000;
                       offsetHeight := 400; has_scroll := true |} tt
                    eq_refl eq_refl)).
Defined.

(** ** Submitting a comment *)

Lemma onCommentSubmitted_nonempty (commentID cur : string) (s : Store) :
  commentID <> "" -> cur <> "" ->
  exec (onCommentSubmitted commentID cur) s
  = (if tailing s then s
     else exec (setNewComment
                  (Some {| nc_id := commentID; nc_cursor := cur |})) s).
Proof.
  intros H1 H2. unfold exec, onCommentSubmitted.
  destruct (truthy_string commentID) eqn:E1;
    [| apply truthy_string_false in E1; contradiction].
  destruct (truthy_string cur) eqn:E2;
    [| apply truthy_string_false in E2; contradiction].
  cbn. unfold bind, gets. destruct (tailing s); reflexivity.
Qed.

(** C8: when the viewer submits a comment with a non-empty id and cursor,
    [setNewComment] is called, with that id and cursor, exactly when
    tailing is false; while tailing, the handler calls nothing and the
    pending pointer is what it was. *)
Theorem onCommentSubmitted_pointer (commentID cur : string) (s : Store) :
  commentID <> "" ->
  cur <> "" ->
  let pointer := {| nc_id := commentID; nc_cursor := cur |} in
  let s' := exec (onCommentSubmitted commentID cur) s in
  calls (onCommentSubmitted commentID cur) s
  = (if tailing s then [] else [E_setNewComment (Some pointer)])
  /\ newComment s' = (if tailing s then newComment s else Some pointer)
  /\ (In (E_setNewComment (Some pointer))
         (calls (onCommentSubmitted commentID cur) s)
      <-> tailing s = false).
Proof.
  intros H1 H2 pointer s'.
  assert (Hc : calls (onCommentSubmitted commentID cur) s
               = (if tailing s then [] else [E_setNewComment (Some pointer)])).
  { apply calls_app. rewrite onCommentSubmitted_nonempty by assumption.
    destruct (tailing s); [now rewrite app_nil_r | reflexivity]. }
  split; [exact Hc | split].
  - unfold s'. rewrite onCommentSubmitted_nonempty by assumption.
    destruct (tailing s); reflexivity.
  - rewrite Hc. destruct (tailing s); cbn; split;
      auto; try discriminate; intros [].
Qed.

(** Submitting [c3] while tailing, and while not. *)
Lemma onCommentSubmitted_pointer_witness :
  newComment (exec (onCommentSubmitted "c3" "cursor3") (init true ∅)) = None
  /\ newComment (exec (onCommentSubmitted "c3" "cursor3") (init false ∅))
     = Some {| nc_id := "c3"; nc_cursor := "cursor3" |}.
Proof.
  split.
  - apply (onCommentSubmitted_pointer "c3" "cursor3" (init true ∅));
      discriminate.
  - apply (onCommentSubmitted_pointer "c3" "cursor3" (init false ∅));
      discriminate.
Defined.

(** C10: with an empty comment id or an empty cursor the comment-submitted
    handler returns at once: the store is left as it is, no pointer is
    created and nothing is called, whether tailing or not. *)
Theorem onCommentSubmitted_empty (commentID cur : string) (s : Store) :
  commentID = "" \/ cur = "" ->
  exec (onCommentSubmitted commentID cur) s = s
  /\ newComment (exec (onCommentSubmitted commentID cur) s) = newComment s
  /\ calls (onCommentSubmitted commentID cur) s = [].
Proof.
  intros H.
  assert (E : exec (onCommentSubmitted commentID cur) s = s).
  { unfold exec, onCommentSubmitted.
    destruct H as [-> | ->]; cbn; [reflexivity |].
    rewrite orb_true_r. reflexivity. }
  split; [exact E | split].
  - now rewrite E.
  - apply calls_app. rewrite E. now rewrite app_nil_r.
Qed.

(** An empty id, an empty cursor, tailing off. *)
Lemma onCommentSubmitted_empty_witness :
  newComment (exec (onCommentSubmitted "" "cursor3") (init false ∅)) = None
  /\ newComment (exec (onCommentSubmitted "c3" "") (init false ∅)) = None.
Proof.
  split.
  - apply (onCommentSubmitted_empty "" "cursor3" (init false ∅)).
    left. reflexivity.
  - apply (onCommentSubmitted_empty "c3" "" (init false ∅)).
    right. reflexivity.
Defined.

(** ** The report control *)

Lemma includes_In (l : list string) (x : string) :
  ActionBar.includes l x = true <-> In x l.
Proof.
  unfold ActionBar.includes. rewrite existsb_exists. split.
  - intros (y & Hy & E). apply String.eqb_eq in E. now subst.
  - intros H. exists x. split; [exact H | apply String.eqb_refl].
Qed.

Lemma hasStatus_false (v : option ActionBar.Viewer) (status : string) :
  ActionBar.hasStatus v status = false
  <-> forall u, v = Some u -> ~ In status (ActionBar.status_current u).
Proof.
  destruct v as [u|]; cbn.
  - rewrite <- not_true_iff_false, includes_In. split.
    + intros H u' E. now injection E as <-.
    + intros H. now apply H.
  - split; [discriminate | reflexivity].
Qed.

Lemma showModerationCaret_spec (can_MODERATE : ActionBar.Viewer -> bool)
    (pr : ActionBar.Props) :
  ActionBar.showModerationCaret can_MODERATE pr = true
  <-> exists v, ActionBar.viewer pr = Some v
                /\ ActionBar.canModerate (ActionBar.story pr) = true
                /\ can_MODERATE v = true.
Proof.
  unfold ActionBar.showModerationCaret.
  destruct (ActionBar.viewer pr) as [v|].
  - rewrite andb_true_iff. split.
    + intros [H1 H2]. now exists v.
    + intros (v' & E & H1 & H2). now injection E as <-.
  - split; [discriminate | intros (v & E & _); discriminate].
Qed.

Lemma truthy_option_true {A : Type} (o : option A) :
  truthy_option o = true <-> o <> None.
Proof. destruct o; cbn; split; congruence. Qed.

Lemma rightActions_report (can_MODERATE : ActionBar.Viewer -> bool)
    (getModerationLink : string -> string) (accessToken : option string)
    (pr : ActionBar.Props) (o : option bool) :
  In (ActionBar.ReportButton o)
     (ActionBar.rightActions can_MODERATE getModerationLink accessToken pr)
  <-> o = ActionBar.showReport pr /\ report_guard can_MODERATE pr = true.
Proof.
  unfold ActionBar.rightActions. fold (report_guard can_MODERATE pr).
  rewrite in_app_iff.
  destruct (report_guard can_MODERATE pr),
    (ActionBar.showModerationCaret can_MODERATE pr); cbn.
  all: split; [intros H | intros [-> H]].
  all: try discriminate; auto.
  all: repeat (destruct H as [H | H]); try discriminate; try contradiction.
  all: injection H as <-; auto.
Qed.

Lemma report_guard_spec (can_MODERATE : ActionBar.Viewer -> bool)
    (pr : ActionBar.Props) :
  report_guard can_MODERATE pr = true
  <-> ActionBar.viewer pr <> None
      /\ (forall v, ActionBar.viewer pr = Some v ->
            ~ In ActionBar.BANNED (ActionBar.status_current v)
            /\ ~ In ActionBar.SUSPENDED (ActionBar.status_current v)
            /\ ~ In ActionBar.WARNED (ActionBar.status_current v))
      /\ ActionBar.showModerationCaret can_MODERATE pr = false
      /\ ActionBar.onToggleReport pr <> None.
Proof.
  unfold report_guard, ActionBar.isViewerBanned, ActionBar.isViewerSuspended,
    ActionBar.isViewerWarned.
  rewrite !andb_true_iff, !negb_true_iff, !truthy_option_true,
    !hasStatus_false.
  split.
  - intros (((((Hv & Hb) & Hs) & Hw) & Hc) & Ht). repeat split; eauto.
  - intros (Hv & Hst & Hc & Ht). repeat split; auto;
      intros v E; apply (Hst v E).
Qed.

(** C9: the action bar renders the report control exactly when the viewer
    is non-null, the viewer's current status includes none of BANNED,
    SUSPENDED and WARNED, the moderation caret is not shown, and an
    [onToggleReport] handler was supplied; the moderation caret is shown
    exactly when there is a viewer, the story can be moderated and the
    viewer has the MODERATE ability. *)
Theorem report_control_rendered_iff
    (can_MODERATE : ActionBar.Viewer -> bool)
    (getModerationLink : string -> string)
    (accessToken : option string) (pr : ActionBar.Props) :
  ((exists o,
      In (ActionBar.ReportButton o)
         (ActionBar.rightActions can_MODERATE getModerationLink
            accessToken pr))
   <-> ActionBar.viewer pr <> None
       /\ (forall v, ActionBar.viewer pr = Some v ->
             ~ In ActionBar.BANNED (ActionBar.status_current v)
             /\ ~ In ActionBar.SUSPENDED (ActionBar.status_current v)
             /\ ~ In ActionBar.WARNED (ActionBar.status_current v))
       /\ ActionBar.showModerationCaret can_MODERATE pr = false
       /\ ActionBar.onToggleReport pr <> None)
  /\ (ActionBar.showModerationCaret can_MODERATE pr = true
      <-> exists v, ActionBar.viewer pr = Some v
                    /\ ActionBar.canModerate (ActionBar.story pr) = true
                    /\ can_MODERATE v = true).
Proof.
  split; [| apply showModerationCaret_spec].
  rewrite <- report_guard_spec. split.
  - intros (o & H). now apply rightActions_report in H.
  - intros H. exists (ActionBar.showReport pr).
    apply rightActions_report. auto.
Qed.

(** A signed-in commenter sees the report control; a moderator of the
    story sees the moderation link in its place; a banned commenter sees
    neither. *)
Example rightActions_samples :
  let can := fun v : ActionBar.Viewer =>
               String.eqb (ActionBar.role v) "MODERATOR" in
  let link := fun id : string => ("/admin/moderate/comment/" ++ id)%string in
  let pr := fun r st =>
    {| ActionBar.story := {| ActionBar.canModerate := true |};
       ActionBar.comment := {| ActionBar.comment_id := "c1";
                               ActionBar.replyCount := 0 |};
       ActionBar.viewer := Some {| ActionBar.role := r;
                                   ActionBar.status_current := st |};
       ActionBar.settings := {| ActionBar.sso_enabled := false;
                                ActionBar.sso_targetFilter_admin := false |};
       ActionBar.onConversation := None;
       ActionBar.onReply := Some tt;
       ActionBar.showReport := Some false;
       ActionBar.onToggleReport := Some tt |} in
  ActionBar.rightActions can link None (pr "COMMENTER" ["ACTIVE"])
  = [ActionBar.ReportButton (Some false)]
  /\ ActionBar.rightActions can link None (pr "MODERATOR" ["ACTIVE"])
     = [ActionBar.ModerateButton "/admin/moderate/comment/c1"]
  /\ ActionBar.rightActions can link None (pr "COMMENTER" ["BANNED"])
     = [].
Proof. cbv zeta. repeat split. Qed.

(** * Further properties *)

(** ** Timers *)

Lemma respects_setTimeout_next (R : Store -> Store -> Prop) (cb : Timer)
    (d : Z) :
  (forall s, R s (set_timers (<[next_timer s := (cb, d)]> (timers s))
                             (Pos.succ (next_timer s)) s)) ->
  respects R (setTimeout cb d).
Proof. intros H s. apply H. Qed.

Lemma keeps_sole_refl r cb (s : Store) : keeps_sole r cb s s.
Proof. intros H. exact H. Qed.

Lemma keeps_sole_trans r cb (a b c : Store) :
  keeps_sole r cb a b -> keeps_sole r cb b c -> keeps_sole r cb a c.
Proof. unfold keeps_sole. auto. Qed.

(** Cancel what the cell points at, schedule again, keep the new handle:
    the shape of [maintainPrevScrollStateAndClear] and of
    [performTailingScroll]. *)
Lemma rearm_keeps_sole (r : TimeoutRef) (cb : Timer) (d : Z) :
  respects (keeps_sole r cb)
    (t <- read_timeout r ;;
     when (truthy_option t) (clearTimeout t) ;;
     id <- setTimeout cb d ;;
     write_timeout r (Some id)).
Proof.
  intros s H id d' Hl. revert Hl.
  unfold bind, read_timeout, gets, when, setTimeout, write_timeout, modify.
  cbn. destruct (timeout s r) as [old|] eqn:E; cbn; unfold upd;
    rewrite decide_True by reflexivity; rewrite lookup_insert;
    case_decide; try congruence.
  - rewrite lookup_delete. case_decide; [discriminate |].
    intros Hl. apply H in Hl. congruence.
  - intros Hl. apply H in Hl. congruence.
Qed.

(** The same with a flag written in between: the shape of the tailing
    branch of [afterCommentsChanged]. *)
Lemma rearm_flag_keeps_sole (r : TimeoutRef) (cb : Timer) (d : Z)
    (f : FlagRef) (b : bool) :
  respects (keeps_sole r cb)
    (t <- read_timeout r ;;
     when (truthy_option t) (clearTimeout t) ;;
     write_flag f b ;;
     id <- setTimeout cb d ;;
     write_timeout r (Some id)).
Proof.
  intros s H id d' Hl. revert Hl.
  unfold bind, read_timeout, gets, when, setTimeout, write_timeout,
    write_flag, modify.
  cbn. destruct (timeout s r) as [old|] eqn:E; cbn; unfold upd;
    rewrite decide_True by reflexivity; rewrite lookup_insert;
    case_decide; try congruence.
  - rewrite lookup_delete. case_decide; [discriminate |].
    intros Hl. apply H in Hl. congruence.
  - intros Hl. apply H in Hl. congruence.
Qed.

Ltac sole_leaf :=
  first
    [ apply respects_setTimeout_next; intros ? Hsole ? ? Hl; revert Hl; cbn;
      rewrite lookup_insert; case_decide;
      [ intros Hl; discriminate Hl | intros Hl; exact (Hsole _ _ Hl) ]
    | apply respects_modify; intros ? Hsole ? ? Hl; revert Hl; cbn;
      unfold upd;
      try (rewrite lookup_delete; case_decide; [intros Hl; discriminate Hl |]);
      repeat case_decide; try congruence;
      intros Hl; exact (Hsole _ _ Hl) ].

Ltac sole_tac :=
  autounfold with callbacks;
  repeat first [ exact (rearm_keeps_sole _ _ _)
               | exact (rearm_flag_keeps_sole _ _ _ _ _)
               | respects_step ];
  sole_leaf.

Lemma handle_keeps_sole (r : TimeoutRef) (cb : Timer) (p : Props) (h : Host)
    (e : Event) :
  In (r, cb) debounced_timers ->
  respects (keeps_sole r cb) (handle p h e).
Proof.
  intros Hin.
  assert (Hr := keeps_sole_refl r cb).
  assert (Ht := keeps_sole_trans r cb).
  destruct Hin as [E | [E | [E | []]]]; injection E as <- <-;
    destruct e; sole_tac.
Qed.

Lemma sole_timer_init (r : TimeoutRef) (cb : Timer) (tl : bool)
    (ls : gmap string CursorState) :
  sole_timer r cb (init tl ls).
Proof. intros id d Hl. cbn in Hl. rewrite lookup_empty in Hl. discriminate. Qed.

Lemma run_keeps_sole (r : TimeoutRef) (cb : Timer) (ts : list Turn) :
  In (r, cb) debounced_timers ->
  forall s, sole_timer r cb s -> Forall (sole_timer r cb) (trace ts s).
Proof.
  intros Hin. induction ts as [|t ts IH]; intros s Hs; cbn.
  - constructor; [exact Hs | constructor].
  - constructor; [exact Hs |]. apply IH.
    now apply (handle_keeps_sole r cb (props t) (host t) (event t) Hin s).
Qed.

(** X1: from a fresh mount on, whatever the events, at most one
    [clearScrollState] timer, at most one [performTailingScroll] timer and
    at most one [afterTailingScroll] timer is pending at any time: each is
    cancelled before it is scheduled again, and the pending one is the one
    whose handle its ref holds. *)
Theorem debounced_timers_single (ts : list Turn) (tl : bool)
    (ls : gmap string CursorState) :
  Forall
    (fun s =>
       forall r cb id id' d d',
         In (r, cb) debounced_timers ->
         timers s !! id = Some (cb, d) ->
         timers s !! id' = Some (cb, d') ->
         id = id' /\ timeout s r = Some id)
    (trace ts (init tl ls)).
Proof.
  apply Forall_forall. intros s Hs r cb id id' d d' Hin Hl Hl'.
  assert (H : sole_timer r cb s).
  { pose proof (run_keeps_sole r cb ts Hin (init tl ls)
                  (sole_timer_init r cb tl ls)) as HF.
    rewrite Forall_forall in HF. now apply HF. }
  pose proof (H _ _ Hl) as E. pose proof (H _ _ Hl') as E'.
  split; [congruence | exact E].
Qed.

(** *** Handles are fresh *)

Lemma keeps_fresh_refl (s : Store) : keeps_fresh s s.
Proof. intros H. exact H. Qed.

Lemma keeps_fresh_trans (a b c : Store) :
  keeps_fresh a b -> keeps_fresh b c -> keeps_fresh a c.
Proof. unfold keeps_fresh. auto. Qed.

Ltac fresh_leaf :=
  first
    [ apply respects_setTimeout_next; intros ? Hfresh ? ? Hl; revert Hl; cbn;
      rewrite lookup_insert; case_decide;
      [ intros _; subst; apply Pos.lt_succ_diag_r
      | intros Hl; apply Pos.lt_lt_succ; exact (Hfresh _ _ Hl) ]
    | apply respects_modify; intros ? Hfresh ? ? Hl; revert Hl; cbn;
      try (rewrite lookup_delete; case_decide; [intros Hl; discriminate Hl |]);
      intros Hl; exact (Hfresh _ _ Hl) ].

Lemma handle_keeps_fresh (p : Props) (h : Host) (e : Event) :
  respects keeps_fresh (handle p h e).
Proof.
  assert (Hr := keeps_fresh_refl).
  assert (Ht := keeps_fresh_trans).
  destruct e; autounfold with callbacks; repeat respects_step; fresh_leaf.
Qed.

Lemma run_keeps_fresh (ts : list Turn) :
  forall s, fresh_handles s -> fresh_handles (run ts s).
Proof.
  induction ts as [|t ts IH]; intros s Hs; cbn; [exact Hs |].
  apply IH. now apply (handle_keeps_fresh (props t) (host t) (event t) s).
Qed.

Lemma fresh_handles_init (tl : bool) (ls : gmap string CursorState) :
  fresh_handles (init tl ls).
Proof. intros id x Hl. cbn in Hl. rewrite lookup_empty in Hl. discriminate. Qed.

(** *** The cell of the jump timer *)

Lemma same_timeout_refl r (s : Store) : same_timeout r s s.
Proof. reflexivity. Qed.

Lemma same_timeout_trans r (a b c : Store) :
  same_timeout r a b -> same_timeout r b c -> same_timeout r a c.
Proof. unfold same_timeout. congruence. Qed.

Ltac same_timeout_leaf :=
  first
    [ apply respects_setTimeout_next; intros ?; reflexivity
    | apply respects_modify; intros ?; unfold same_timeout; cbn; unfold upd;
      repeat case_decide; congruence ].

Lemma handle_same_scrollToCommentTimeout (p : Props) (h : Host) (e : Event) :
  respects (same_timeout scrollToCommentTimeout) (handle p h e).
Proof.
  assert (Hr := same_timeout_refl scrollToCommentTimeout).
  assert (Ht := same_timeout_trans scrollToCommentTimeout).
  destruct e; autounfold with callbacks; repeat respects_step;
    same_timeout_leaf.
Qed.

Lemma run_same_scrollToCommentTimeout (ts : list Turn) :
  forall s, timeout (run ts s) scrollToCommentTimeout
            = timeout s scrollToCommentTimeout.
Proof.
  induction ts as [|t ts IH]; intros s; cbn; [reflexivity |].
  rewrite IH.
  apply (handle_same_scrollToCommentTimeout (props t) (host t) (event t) s).
Qed.

(** X2: no callback ever writes [scrollToCommentTimeout], so the
    [clearTimeout] in front of [jumpToComment]'s [setTimeout] never cancels
    anything: in any store reached from a fresh mount, clicking the jump
    button while a pointer is pending keeps every pending timer and adds
    one [scrollToComment] timer (300ms) holding that pointer; it calls
    [setCursor] with the pointer's cursor and emits the jump event, and
    leaves the pointer in place. *)
Theorem jumpToComment_never_cancels (ts : list Turn) (tl : bool)
    (ls : gmap string CursorState) (p : Props) (n : NewComment) :
  let s := run ts (init tl ls) in
  let s' := exec (jumpToComment p) s in
  newComment s = Some n ->
  timeout s scrollToCommentTimeout = None
  /\ timers s !! next_timer s = None
  /\ timers s'
     = <[next_timer s := (T_scrollToComment (Some n), 300%Z)]> (timers s)
  /\ calls (jumpToComment p) s
     = [E_setCursor (nc_cursor n);
        E_emit_LiveJumpToComment (story_id p) (nc_id n) (viewerID p)]
  /\ newComment s' = Some n.
Proof.
  intros s s' Hn.
  assert (Ht : timeout s scrollToCommentTimeout = None)
    by (unfold s; now rewrite run_same_scrollToCommentTimeout).
  assert (Hf : timers s !! next_timer s = None).
  { destruct (timers s !! next_timer s) as [x|] eqn:E; [| reflexivity].
    pose proof (run_keeps_fresh ts (init tl ls) (fresh_handles_init tl ls)
                  _ _ E) as Hlt.
    exfalso. exact (Pos.lt_irrefl _ Hlt). }
  split; [exact Ht | split; [exact Hf |]].
  unfold s', calls, exec, jumpToComment, bind at 1, gets at 1. cbn.
  rewrite Hn. unfold bind, call, modify, read_timeout, gets. cbn.
  rewrite Ht. cbn. rewrite <- app_assoc, drop_app_length.
  repeat split. exact Hn.
Qed.

(** Two clicks on the jump button of a pending pointer: two timers. *)
Lemma jumpToComment_never_cancels_witness :
  let ts := [turn sample_props (sample_host 0) (CommentSubmitted "c9" "k9");
             turn sample_props (sample_host 0) JumpClicked] in
  size (timers (run ts (init false ∅))) = 1
  /\ size (timers (exec (jumpToComment sample_props)
                        (run ts (init false ∅)))) = 2.
Proof.
  intros ts. split; [reflexivity |].
  destruct (jumpToComment_never_cancels ts false ∅ sample_props
              {| nc_id := "c9"; nc_cursor := "k9" |} eq_refl)
    as (_ & Hf & -> & _).
  rewrite map_size_insert_None by exact Hf. reflexivity.
Defined.

(** *** What the cells point at *)

Lemma keeps_handles_refl (s : Store) : keeps_handles s s.
Proof. intros H. exact H. Qed.

Lemma keeps_handles_trans (a b c : Store) :
  keeps_handles a b -> keeps_handles b c -> keeps_handles a c.
Proof. unfold keeps_handles. auto. Qed.

(** Schedule and keep the handle. *)
Lemma arm_keeps_handles (r : TimeoutRef) (cb : Timer) (d : Z) :
  scheduled_by r cb ->
  respects keeps_handles
    (id <- setTimeout cb d ;; write_timeout r (Some id)).
Proof.
  intros Hk s (Hf & Hb & Ho).
  unfold bind, setTimeout, write_timeout, modify.
  split; [| split].
  - intros id x. cbn. rewrite lookup_insert. case_decide.
    + intros _. subst. apply Pos.lt_succ_diag_r.
    + intros Hl. apply Pos.lt_lt_succ. exact (Hf _ _ Hl).
  - intros r' id. cbn. unfold upd. case_decide.
    + intros [= <-]. apply Pos.lt_succ_diag_r.
    + intros Hr'. apply Pos.lt_lt_succ. exact (Hb _ _ Hr').
  - intros r' id cb' d'. cbn. unfold upd. rewrite lookup_insert. case_decide.
    + intros [= <-]. rewrite decide_True by reflexivity.
      intros [= <- <-]. subst. exact Hk.
    + intros Hr'. case_decide.
      * subst. exfalso. exact (Pos.lt_irrefl _ (Hb _ _ Hr')).
      * intros Hl. exact (Ho _ _ _ _ Hr' Hl).
Qed.

Ltac handles_leaf :=
  first
    [ apply respects_setTimeout_next;
      intros ? (Hf & Hb & Ho); (split; [| split]);
      [ intros ? ?; cbn; rewrite lookup_insert; case_decide;
        [ intros _; subst; apply Pos.lt_succ_diag_r
        | intros Hl; apply Pos.lt_lt_succ; exact (Hf _ _ Hl) ]
      | intros ? ? Hr'; cbn in *; apply Pos.lt_lt_succ; exact (Hb _ _ Hr')
      | intros ? ? ? ? Hr'; cbn in *; rewrite lookup_insert; case_decide;
        [ subst; exfalso; exact (Pos.lt_irrefl _ (Hb _ _ Hr'))
        | intros Hl; exact (Ho _ _ _ _ Hr' Hl) ] ]
    | apply respects_modify;
      intros ? (Hf & Hb & Ho); (split; [| split]);
      [ intros ? ?; cbn;
        try (rewrite lookup_delete; case_decide;
             [intros Hl; discriminate Hl |]);
        intros Hl; exact (Hf _ _ Hl)
      | intros ? ?; cbn; unfold upd; repeat case_decide; try congruence;
        intros Hr'; exact (Hb _ _ Hr')
      | intros ? ? ? ?; cbn; unfold upd; repeat case_decide; try congruence;
        intros Hr';
        try (rewrite lookup_delete; case_decide;
             [intros Hl; discriminate Hl |]);
        intros Hl; exact (Ho _ _ _ _ Hr' Hl) ] ].

Lemma handle_keeps_handles (p : Props) (h : Host) (e : Event) :
  respects keeps_handles (handle p h e).
Proof.
  assert (Hr := keeps_handles_refl).
  assert (Ht := keeps_handles_trans).
  destruct e; autounfold with callbacks;
    repeat first [ (apply arm_keeps_handles; reflexivity)
                 | respects_step ];
    handles_leaf.
Qed.

Lemma run_keeps_handles (ts : list Turn) :
  forall s, handles_ok s -> handles_ok (run ts s).
Proof.
  induction ts as [|t ts IH]; intros s Hs; cbn; [exact Hs |].
  apply IH. now apply (handle_keeps_handles (props t) (host t) (event t) s).
Qed.

Lemma handles_ok_init (tl : bool) (ls : gmap string CursorState) :
  handles_ok (init tl ls).
Proof.
  split; [apply fresh_handles_init | split]; cbn; intros; discriminate.
Qed.

(** ** Unmount *)

Lemma unmount_timers (s : Store) :
  timers (exec unmount s)
  = foldr (fun r m => match timeout s r with
                      | Some id => delete id m
                      | None => m
                      end)
          (timers s)
          [afterMaintainScrollStateTimeout; clearScrollStateTimeout;
           beforeMaintainScrollStateTimeout; timeoutReg]
  /\ fst (unmount s) = Normal tt
  /\ timeout (exec unmount s) = timeout s
  /\ flag (exec unmount s) = flag s
  /\ snap (exec unmount s) = snap s
  /\ log (exec unmount s) = log s.
Proof.
  unfold exec, unmount, mount_cleanup, bind, read_timeout, gets, when. cbn.
  destruct (timeout s timeoutReg); cbn;
    destruct (timeout s beforeMaintainScrollStateTimeout); cbn;
    destruct (timeout s clearScrollStateTimeout); cbn;
    destruct (timeout s afterMaintainScrollStateTimeout); cbn;
    repeat split.
Qed.

Lemma unmount_lookup (s : Store) (id : positive) (x : Timer * Z) :
  timers (exec unmount s) !! id = Some x
  <-> timers s !! id = Some x
      /\ forall r, In r unmount_cells -> timeout s r <> Some id.
Proof.
  destruct (unmount_timers s) as (Ht & _).
  rewrite Ht. unfold unmount_cells. cbn.
  destruct (timeout s timeoutReg) as [a|] eqn:Ea;
    destruct (timeout s beforeMaintainScrollStateTimeout) as [b|] eqn:Eb;
    destruct (timeout s clearScrollStateTimeout) as [c|] eqn:Ec;
    destruct (timeout s afterMaintainScrollStateTimeout) as [d|] eqn:Ed;
    rewrite ?lookup_delete; repeat case_decide; subst; split.
  all: try (intros Hl'; discriminate Hl').
  all: try (intros Hl'; split; [exact Hl' |];
            intros r [<- | [<- | [<- | [<- | []]]]]; congruence).
  all: intros [Hl' Hno]; try exact Hl'; exfalso.
  all: first [ now apply (Hno timeoutReg); [cbn; tauto |]
             | now apply (Hno beforeMaintainScrollStateTimeout);
               [cbn; tauto |]
             | now apply (Hno clearScrollStateTimeout); [cbn; tauto |]
             | now apply (Hno afterMaintainScrollStateTimeout);
               [cbn; tauto |] ].
Qed.

(** X3: unmounting cancels exactly the timers whose handles sit in the
    cells of the mount effect, of the two deferred scroll adjustments and
    of [clearScrollState]: a timer is pending afterwards exactly when it
    was pending before and none of these four cells holds its handle.  The
    unmount completes, calls nothing and leaves refs and cells as they
    are. *)
Theorem unmount_cancels_its_cells (s : Store) (id : positive)
    (x : Timer * Z) :
  (timers (exec unmount s) !! id = Some x
   <-> timers s !! id = Some x
       /\ forall r, In r unmount_cells -> timeout s r <> Some id)
  /\ fst (unmount s) = Normal tt
  /\ calls unmount s = []
  /\ timeout (exec unmount s) = timeout s
  /\ flag (exec unmount s) = flag s.
Proof.
  destruct (unmount_timers s) as (_ & Hn & Hc & Hf & _ & Hl).
  split; [apply unmount_lookup | repeat split; auto].
  apply calls_app. rewrite Hl. now rewrite app_nil_r.
Qed.

(** X4: the tailing scroll is not among them.  In any store reached from a
    fresh mount, a pending [performTailingScroll] timer is still pending
    after the unmount; when it fires over the unmounted DOM (the container
    ref is null) it has set [scrollEnabled.current] to false before
    [scrollToEnd] throws on [containerRef.current.scrollHeight], and it
    calls nothing. *)
Theorem tailing_timer_survives_unmount (ts : list Turn) (tl : bool)
    (ls : gmap string CursorState) (p : Props) (h : Host) (id : positive)
    (d : Z) :
  let s := run ts (init tl ls) in
  let s' := step (turn p h Unmounted) s in
  timers s !! id = Some (T_performTailingScroll, d) ->
  containerRef h = None ->
  timers s' !! id = Some (T_performTailingScroll, d)
  /\ fst (fire h id s') = Throw
  /\ flag (exec (fire h id) s') scrollEnabled = false
  /\ calls (fire h id) s' = [].
Proof.
  intros s s' Hl Hc.
  assert (Hok : handles_ok s)
    by (apply run_keeps_handles, handles_ok_init).
  destruct Hok as (_ & _ & Ho).
  assert (Hl' : timers s' !! id = Some (T_performTailingScroll, d)).
  { apply unmount_lookup. split; [exact Hl |].
    intros r Hr E. specialize (Ho r id _ _ E Hl).
    destruct Hr as [<- | [<- | [<- | [<- | []]]]]; discriminate Ho. }
  split; [exact Hl' |].
  unfold calls, exec. rewrite fire_unfold, Hl'.
  unfold bind, clearTimeout, modify, run_timer, performTailingScroll,
    write_flag, scrollToEnd. cbn. rewrite Hc. cbn.
  rewrite drop_all. repeat split.
Qed.

(** The after window changes while tailing, then the component unmounts
    before the 100ms are over. *)
Lemma tailing_timer_survives_unmount_witness :
  let ts := [turn sample_props (sample_host 600) Mounted;
             turn sample_props (sample_host 600) AfterCommentsChanged] in
  let s' := step (turn sample_props unmounted_host Unmounted)
                 (run ts (init false ∅)) in
  timers s' !! 2%positive = Some (T_performTailingScroll, 100%Z)
  /\ fst (fire unmounted_host 2 s') = Throw.
Proof.
  intros ts s'.
  destruct (tailing_timer_survives_unmount ts false ∅ sample_props
              unmounted_host 2 100 eq_refl eq_refl) as (H1 & H2 & _).
  split; [exact H1 | exact H2].
Defined.

(** ** Keeping the scroll position when older comments are prepended *)

(** What [maintainPrevScrollState] writes to [scrollTop] for a snapshot
    taken over [c0] and a container now measuring [c1]. *)
Lemma maintainPrevScrollState_calls (h : Host) (s : Store) (c1 : Element)
    (ph pt : Q) :
  snap s prevScrollHeight = Some ph -> snap s prevScrollTop = Some pt ->
  containerRef h = Some c1 ->
  maintainPrevScrollState h s
  = (Normal tt,
     add_log (E_set_scrollTop
                (scrollHeight c1 - ph + (if Qltb 0 pt then pt else 0))%Q) s).
Proof.
  intros H1 H2 Hc. unfold maintainPrevScrollState, bind, read_snap, gets.
  rewrite H1, H2, Hc. reflexivity.
Qed.

Lemma onBeginInView_snapshot (p : Props) (h : Host) (s : Store)
    (c : Element) :
  beforeHasMore p = true -> isLoadingMoreBefore p = false ->
  flag s beforeCommentsIncoming = false -> containerRef h = Some c ->
  snap (exec (onBeginInView p h) s) prevScrollHeight = Some (scrollHeight c)
  /\ snap (exec (onBeginInView p h) s) prevScrollTop = Some (scrollTop c).
Proof.
  intros H1 H2 H3 H4.
  unfold exec, onBeginInView, read_flag, gets, bind. cbn.
  rewrite H1, H2, H3, H4. split; reflexivity.
Qed.

(** X5: the begin sentinel takes a snapshot of the container, and when the
    before window then changes (not on iOS, where the adjustment is
    deferred), [scrollTop] is written once, with a value that puts the
    viewport as far from the end of the content as it was at the snapshot;
    a negative [scrollTop] at the snapshot counts as 0. *)
Theorem prepend_keeps_distance_to_end (p : Props) (h0 h1 : Host)
    (s0 : Store) (c0 c1 : Element) :
  beforeHasMore p = true ->
  isLoadingMoreBefore p = false ->
  flag s0 beforeCommentsIncoming = false ->
  containerRef h0 = Some c0 ->
  containerRef h1 = Some c1 ->
  isSafari h1 = false ->
  let s1 := exec (settle Before Fulfilled) (exec (onBeginInView p h0) s0) in
  exists v,
    calls (beforeCommentsChanged h1) s1 = [E_set_scrollTop v]
    /\ ((0 <= scrollTop c0)%Q ->
        (scrollHeight c1 - v == scrollHeight c0 - scrollTop c0)%Q)
    /\ ((scrollTop c0 <= 0)%Q ->
        (scrollHeight c1 - v == scrollHeight c0)%Q).
Proof.
  intros H1 H2 H3 H4 H5 H6 s1.
  destruct (onBeginInView_snapshot p h0 s0 c0 H1 H2 H3 H4) as [Sh St].
  exists (scrollHeight c1 - scrollHeight c0
          + (if Qltb 0 (scrollTop c0) then scrollTop c0 else 0))%Q.
  split; [| split].
  - unfold calls, exec, beforeCommentsChanged, maintainPrevScrollStateAndClear.
    unfold bind at 1, read_timeout at 1, gets at 1.
    unfold bind at 1.
    destruct (when _ _ s1) as [[[]|] s2] eqn:Ew.
    + assert (Hs2 : snap s2 = snap s1 /\ log s2 = log s1).
      { revert Ew. unfold when. destruct (timeout s1 _) as [t|]; cbn;
          intros [= <-]; split; reflexivity. }
      destruct Hs2 as [Hsnap Hlog].
      rewrite H6. unfold bind at 1.
      rewrite (maintainPrevScrollState_calls h1 s2 c1 (scrollHeight c0)
                 (scrollTop c0)) by (rewrite ?Hsnap; assumption).
      unfold bind, read_timeout, gets, when. cbn.
      destruct (timeout s2 clearScrollStateTimeout); cbn;
        rewrite Hlog; apply drop_app_length.
    + exfalso. revert Ew. unfold when.
      destruct (timeout s1 _) as [t|]; cbn; discriminate.
  - intros Hpos. destruct (Qltb 0 (scrollTop c0)) eqn:E.
    + ring.
    + assert (Hle : (scrollTop c0 <= 0)%Q).
      { apply Qnot_lt_le. intros Hlt. apply Qltb_lt in Hlt. congruence. }
      lra.
  - intros Hneg. destruct (Qltb 0 (scrollTop c0)) eqn:E.
    + apply Qltb_lt in E. lra.
    + ring.
Qed.

(** 200px of older comments are prepended above a viewport at 10px. *)
Lemma prepend_keeps_distance_to_end_witness :
  exists v,
    calls (beforeCommentsChanged (sample_host_of 10 1200))
          (exec (settle Before Fulfilled)
                (exec (onBeginInView sample_props (sample_host_of 10 1000))
                      (init false ∅)))
    = [E_set_scrollTop v]
    /\ (1200 - v == 1000 - 10)%Q.
Proof.
  destruct (prepend_keeps_distance_to_end sample_props
              (sample_host_of 10 1000) (sample_host_of 10 1200)
              (init false ∅)
              {| scrollTop := 10; scrollHeight := 1000;
                 offsetHeight := 400; has_scroll := true |}
              {| scrollTop := 10; scrollHeight := 1200;
                 offsetHeight := 400; has_scroll := true |}
              eq_refl eq_refl eq_refl eq_refl eq_refl eq_refl)
    as (v & Hc & Hpos & _).
  exists v. split; [exact Hc |]. apply Hpos. cbn. discriminate.
Defined.

(** ** The tailing sentinel and the tailing scroll *)

Lemma onTailingInView_exec (p : Props) (s : Store) :
  exec (onTailingInView p) s
  = (if negb (afterHasMore p) && negb (isLoadingMoreAfter p)
        && negb (flag s afterCommentsIncoming)
     then exec (setTailing true) s else s).
Proof.
  unfold exec, onTailingInView, bind, read_flag, gets. cbn.
  destruct (_ && _ && _); reflexivity.
Qed.

(** X6: the tailing sentinel calls [setTailing(true)] exactly when there is
    no more forward data and no forward load is in flight
    ([isLoadingMoreAfter] and [afterCommentsIncoming] both false), and
    calls nothing otherwise: it never turns tailing off.  Under the same
    props and store, the end sentinel and the tailing sentinel never both
    act. *)
Theorem onTailingInView_turns_tailing_on (p : Props) (s : Store) :
  calls (onTailingInView p) s
  = (if negb (afterHasMore p) && negb (isLoadingMoreAfter p)
        && negb (flag s afterCommentsIncoming)
     then [E_setTailing true] else [])
  /\ tailing (exec (onTailingInView p) s)
     = (negb (afterHasMore p) && negb (isLoadingMoreAfter p)
        && negb (flag s afterCommentsIncoming)
        || tailing s)
  /\ (calls (onEndInView p) s = [] \/ calls (onTailingInView p) s = []).
Proof.
  assert (Hc : calls (onTailingInView p) s
               = (if negb (afterHasMore p) && negb (isLoadingMoreAfter p)
                     && negb (flag s afterCommentsIncoming)
                  then [E_setTailing true] else [])).
  { apply calls_app. rewrite onTailingInView_exec.
    destruct (_ && _ && _); [reflexivity | now rewrite app_nil_r]. }
  split; [exact Hc | split].
  - rewrite onTailingInView_exec. destruct (_ && _ && _); reflexivity.
  - rewrite Hc, (calls_app _ _ _ (onEndInView_log p s)). unfold end_guard.
    destruct (afterHasMore p); cbn; auto.
Qed.





(** ** The pending pointer *)

Lemma keeps_pointer_ok_refl (s : Store) : keeps_pointer_ok s s.
Proof. intros H. exact H. Qed.

Lemma keeps_pointer_ok_trans (a b c : Store) :
  keeps_pointer_ok a b -> keeps_pointer_ok b c -> keeps_pointer_ok a c.
Proof. unfold keeps_pointer_ok. auto. Qed.

Lemma onCommentSubmitted_keeps_pointer_ok (commentID cur : string) :
  respects keeps_pointer_ok (onCommentSubmitted commentID cur).
Proof.
  intros s H. unfold onCommentSubmitted.
  destruct (truthy_string commentID) eqn:E1; cbn; [| exact H].
  destruct (truthy_string cur) eqn:E2; cbn; [| exact H].
  unfold bind, gets. destruct (tailing s); cbn; [exact H |].
  intros n [= <-]. cbn. split; intros ->; discriminate.
Qed.

Ltac pointer_leaf :=
  first
    [ apply respects_setTimeout_next; intros ? Hp; exact Hp
    | apply respects_modify; intros ? Hp; first [ exact Hp
                                                | intros ? Hn; discriminate Hn ] ].

Lemma handle_keeps_pointer_ok (p : Props) (h : Host) (e : Event) :
  respects keeps_pointer_ok (handle p h e).
Proof.
  assert (Hr := keeps_pointer_ok_refl).
  assert (Ht := keeps_pointer_ok_trans).
  destruct e; try apply onCommentSubmitted_keeps_pointer_ok;
    autounfold with callbacks; repeat respects_step; pointer_leaf.
Qed.

(** X8: from a fresh mount on, whatever the events, a pending
    jump-to-new-comment pointer has a non-empty comment id and a non-empty
    cursor; so [jumpToComment] never calls [setCursor] with the empty
    string. *)
Theorem pointer_never_empty (ts : list Turn) (tl : bool)
    (ls : gmap string CursorState) :
  Forall
    (fun s =>
       forall n, newComment s = Some n -> nc_id n <> "" /\ nc_cursor n <> "")
    (trace ts (init tl ls))
  /\ forall p : Props,
       ~ In (E_setCursor "") (calls (jumpToComment p) (run ts (init tl ls))).
Proof.
  assert (H : forall ts' s, pointer_ok s -> Forall pointer_ok (trace ts' s)).
  { induction ts' as [|t ts' IH]; intros s Hs; cbn;
      (constructor; [exact Hs |]); [constructor |].
    apply IH.
    now apply (handle_keeps_pointer_ok (props t) (host t) (event t) s). }
  assert (H0 : pointer_ok (init tl ls)) by (intros n Hn; discriminate Hn).
  split; [exact (H ts _ H0) |].
  intros p.
  assert (Hrun : pointer_ok (run ts (init tl ls))).
  { clear H. revert H0. generalize (init tl ls).
    induction ts as [|t ts IH]; intros s Hs; cbn; [exact Hs |].
    apply IH.
    now apply (handle_keeps_pointer_ok (props t) (host t) (event t) s). }
  set (s := run ts (init tl ls)) in *.
  unfold calls, exec, jumpToComment, bind at 1, gets at 1.
  destruct (newComment s) as [n|] eqn:En; cbn.
  - destruct (Hrun n En) as [_ Hc].
    unfold bind, call, modify, read_timeout, gets, when. cbn.
    destruct (timeout s scrollToCommentTimeout); cbn;
      rewrite <- app_assoc, drop_app_length;
      intros [E | [E | []]]; try discriminate E;
      injection E as E; congruence.
  - rewrite drop_all. intros [].
Qed.

(** One call of [onCommentVisible] run to its end with nothing in
    between. *)
Lemma visible_alone_run (p : Props) (h : Host) (visible : bool)
    (id created cur : string) (s : Store) :
  let s' := run (visible_alone p h visible id created cur s) s in
  let writes := overwrites h created (localStorage s !! cursorKey p) in
  newComment s' = (if sees_new id s then None else newComment s)
  /\ localStorage s'
     = (if writes
        then <[cursorKey p := seen created cur]> (localStorage s)
        else localStorage s)
  /\ log s'
     = log s ++ [E_getItem (cursorKey p)]
       ++ (if writes then [E_setItem (cursorKey p) (seen created cur)]
           else [])
       ++ (if sees_new id s then [E_setNewComment None] else [])
  /\ (awaited s = ∅ -> awaited s' = ∅).
Proof.
  cbv zeta. unfold visible_alone, sees_new.
  set (a := next_awaited s). set (k := cursorKey p).
  destruct (overwrites h created (localStorage s !! k)) eqn:Ho;
    cbn [app run fold_left]; unfold step, turn; cbn [props host event handle];
    unfold exec.
  all: rewrite onCommentVisible_exec; cbn [snd]; fold a k.
  all: rewrite (serve_exec a); cbn [snd awaited set_awaited add_log];
    rewrite lookup_insert_eq; cbn [result request frame].
  all: rewrite (resume_exec h a); cbn [awaited set_awaited];
    rewrite lookup_insert_eq; cbn [result request frame]; cbv zeta.
  all: rewrite onCommentVisible_rawValue_exec;
    cbn [f_createdAt f_key f_cursor localStorage set_awaited add_log];
    rewrite Ho.
  - rewrite setItem_exec; cbn [snd].
    rewrite serve_exec; cbn [snd awaited set_awaited add_log].
    rewrite lookup_insert_eq; cbn [result request frame].
    rewrite resume_exec; cbn [awaited set_awaited set_localStorage].
    rewrite lookup_insert_eq; cbn [result request frame]; cbv zeta.
    rewrite onCommentVisible_end_exec. unfold hides. cbn [f_newComment f_id].
    destruct (newComment s) as [n|] eqn:En;
      [destruct (String.eqb (nc_id n) id) |]; cbn; rewrite ?En.
    all: repeat split; rewrite <- ?app_assoc; try reflexivity.
    all: intros ->; rewrite !insert_insert_eq, insert_empty,
           delete_singleton_eq, insert_empty;
         apply delete_singleton_eq.
  - rewrite onCommentVisible_end_exec. unfold hides. cbn [f_newComment f_id].
    destruct (newComment s) as [n|] eqn:En;
      [destruct (String.eqb (nc_id n) id) |]; cbn; rewrite ?En.
    all: repeat split; rewrite <- ?app_assoc, ?app_nil_r; try reflexivity.
    all: intros ->; rewrite !insert_insert_eq, insert_empty;
         apply delete_singleton_eq.
Qed.

(** X9: the pointer recorded for a submitted comment is cleared by the
    visibility callback of that comment once it has run to its end, its
    storage calls carried out and fulfilled, whether it reports the comment
    entering or leaving the view; and it is left in place by the
    visibility callback of any other comment. *)
Theorem submitted_then_visible (p : Props) (h : Host) (s : Store)
    (visible : bool) (commentID cur id created cur' : string) :
  commentID <> "" ->
  cur <> "" ->
  tailing s = false ->
  let s1 := exec (onCommentSubmitted commentID cur) s in
  let s2 := run (visible_alone p h visible id created cur' s1) s1 in
  newComment s1 = Some {| nc_id := commentID; nc_cursor := cur |}
  /\ (id = commentID -> newComment s2 = None)
  /\ (id <> commentID -> newComment s2 = newComment s1).
Proof.
  intros H1 H2 Ht s1 s2.
  assert (E1 : newComment s1 = Some {| nc_id := commentID; nc_cursor := cur |}).
  { unfold s1. rewrite onCommentSubmitted_nonempty by assumption.
    rewrite Ht. reflexivity. }
  assert (E2 : newComment s2
               = if String.eqb commentID id then None else newComment s1).
  { unfold s2.
    destruct (visible_alone_run p h visible id created cur' s1) as [-> _].
    unfold sees_new. rewrite E1. reflexivity. }
  split; [exact E1 | split].
  - intros ->. rewrite E2, String.eqb_refl. reflexivity.
  - intros Hne. rewrite E2.
    destruct (String.eqb commentID id) eqn:E; [| reflexivity].
    apply String.eqb_eq in E. congruence.
Qed.

Lemma submitted_then_visible_witness :
  let s1 := exec (onCommentSubmitted "c3" "k3") (init false ∅) in
  newComment (run (visible_alone sample_props (sample_host 0) false
                     "c3" "2021-03-01T10:10:00.000Z" "k3" s1) s1)
  = None.
Proof.
  intros s1.
  apply (submitted_then_visible sample_props (sample_host 0) (init false ∅)
           false "c3" "k3" "c3" "2021-03-01T10:10:00.000Z" "k3");
    (discriminate || reflexivity).
Defined.

Lemma jumpToComment_pending (p : Props) (s : Store) (n : NewComment) :
  newComment s = Some n ->
  timers (exec (jumpToComment p) s) !! next_timer s
  = Some (T_scrollToComment (Some n), 300%Z)
  /\ newComment (exec (jumpToComment p) s) = Some n.
Proof.
  intros Hn. unfold exec, jumpToComment, bind at 1, gets at 1. cbn.
  rewrite Hn. unfold bind, call, modify, read_timeout, gets, when. cbn.
  destruct (timeout s scrollToCommentTimeout); cbn;
    (split; [apply lookup_insert_eq | exact Hn]).
Qed.

Lemma fire_scrollToComment (h : Host) (id : positive) (s : Store)
    (n : NewComment) (d : Z) :
  timers s !! id = Some (T_scrollToComment (Some n), d) ->
  log (exec (fire h id) s)
  = log s
    ++ (if truthy_option (getElementById h ("comment-" ++ nc_id n ++ "-bottom"))
        then [E_scrollIntoView_comment (nc_id n)] else [])
    ++ [E_setNewComment None]
  /\ newComment (exec (fire h id) s) = None.
Proof.
  intros Hl. unfold exec. rewrite fire_unfold, Hl.
  unfold run_timer, scrollToComment, setNewComment, clearTimeout, call,
    modify, bind. cbn.
  destruct (getElementById h _); cbn; rewrite <- ?app_assoc; split;
    reflexivity.
Qed.

(** X10: the timer [jumpToComment] schedules keeps the pointer of the
    render that scheduled it.  When it fires, the comment's bottom marker
    is scrolled into view if the document has it, and the pointer is
    cleared; and this happens just the same when the viewer dismissed the
    jump button in between: dismissing clears the pointer but does not
    cancel the scroll. *)
Theorem jump_scrolls_to_captured_pointer (p : Props) (h : Host) (s : Store)
    (n : NewComment) :
  newComment s = Some n ->
  let id := next_timer s in
  let s1 := exec (jumpToComment p) s in
  let s1' := exec closeJumpToComment s1 in
  let scrolled :=
    (if truthy_option (getElementById h ("comment-" ++ nc_id n ++ "-bottom"))
     then [E_scrollIntoView_comment (nc_id n)] else [])
    ++ [E_setNewComment None] in
  calls (fire h id) s1 = scrolled
  /\ newComment (exec (fire h id) s1) = None
  /\ newComment s1' = None
  /\ calls (fire h id) s1' = scrolled.
Proof.
  intros Hn id s1 s1' scrolled.
  destruct (jumpToComment_pending p s n Hn) as [Hl Hn1].
  assert (Hc : closeJumpToComment s1
               = (Normal tt, set_newComment None
                               (add_log (E_setNewComment None) s1))).
  { unfold closeJumpToComment, bind, gets. fold s1 in Hn1. rewrite Hn1.
    reflexivity. }
  assert (Hl' : timers s1' !! id = Some (T_scrollToComment (Some n), 300%Z)).
  { unfold s1', exec. rewrite Hc. exact Hl. }
  destruct (fire_scrollToComment h id s1 n _ Hl) as [L1 N1].
  destruct (fire_scrollToComment h id s1' n _ Hl') as [L2 N2].
  repeat split.
  - apply calls_app. exact L1.
  - exact N1.
  - unfold s1', exec. rewrite Hc. reflexivity.
  - apply calls_app. exact L2.
Qed.

(** Submit while scrolled away, click jump, dismiss, wait 300ms. *)
Lemma jump_scrolls_to_captured_pointer_witness :
  let h := sample_host 0 in
  let s := exec (onCommentSubmitted "c9" "k9") (init false ∅) in
  calls (fire h 1)
        (exec closeJumpToComment (exec (jumpToComment sample_props) s))
  = [E_scrollIntoView_comment "c9"; E_setNewComment None].
Proof.
  intros h s.
  apply (jump_scrolls_to_captured_pointer sample_props h s
           {| nc_id := "c9"; nc_cursor := "k9" |} eq_refl).
Defined.

(** ** More on the persisted cursor *)

(** X11: a visibility callback that runs to its end with no other callback
    between its awaits touches the cursor record of its own story and url
    only; after it there is a record under that key; and when the stored
    and the new [createdAt] both parse, the time value of the record
    afterwards is the greater of the two. *)
Theorem cursor_record_is_latest (p : Props) (h : Host) (visible : bool)
    (id created cur : string) (s : Store) :
  let s' := run (visible_alone p h visible id created cur s) s in
  (forall k, k <> cursorKey p -> localStorage s' !! k = localStorage s !! k)
  /\ is_Some (localStorage s' !! cursorKey p)
  /\ (forall old x y,
        localStorage s !! cursorKey p = Some old ->
        Date_valueOf h (createdAt old) = Some x ->
        Date_valueOf h created = Some y ->
        exists r, localStorage s' !! cursorKey p = Some r
                  /\ Date_valueOf h (createdAt r) = Some (Z.max x y)).
Proof.
  intros s'.
  destruct (visible_alone_run p h visible id created cur s) as (_ & Hs & _).
  fold s' in Hs. rewrite Hs. unfold overwrites. split; [| split].
  - intros k Hk. destruct (localStorage s !! cursorKey p) as [old|];
      [destruct (date_gt _ _) |]; try reflexivity;
      now rewrite lookup_insert_ne by congruence.
  - destruct (localStorage s !! cursorKey p) as [old|] eqn:E;
      [destruct (date_gt _ _) |];
      rewrite ?lookup_insert_eq, ?E; eauto.
  - intros old x y E Hx Hy. rewrite E, Hx, Hy. cbn.
    destruct (Z.ltb x y) eqn:Hlt.
    + exists (seen created cur). rewrite lookup_insert_eq. split; [easy |].
      cbn. rewrite Hy. f_equal. apply Z.ltb_lt in Hlt. lia.
    + exists old. split; [exact E |]. rewrite Hx. f_equal.
      apply Z.ltb_ge in Hlt. lia.
Qed.

Lemma onCommentVisible_end_same_storage (f : Frame) (s : Store) :
  same_storage s (snd (onCommentVisible_end f s)).
Proof.
  rewrite onCommentVisible_end_exec. destruct (hides f); repeat split.
Qed.

(** While an unparsable record is stored and no promise can lead to a
    write under its key, no turn changes that, whatever its event. *)
Lemma step_settled_on D (k : string) (r : CursorState) (t : Turn)
    (s : Store) :
  D (createdAt r) = None ->
  (forall d, Date_valueOf (host t) d = D d) ->
  settled_on k r s -> settled_on k r (step t s).
Proof.
  destruct t as [p h e]. unfold step. cbn [props host event].
  intros Hr HD [Hl Ha].
  destruct (is_storage_event e) eqn:He.
  2: { destruct (handle_same_storage p h e He s) as (E1 & _ & E2).
       unfold exec. split; [now rewrite E2 | now rewrite E1]. }
  destruct e; try discriminate He; clear He; cbn [handle]; unfold exec.
  - rewrite onCommentVisible_exec. cbn. split; [exact Hl |].
    intros a w Hw. cbn in Hw.
    apply lookup_insert_Some in Hw as [[_ <-] | [_ Hw]];
      [reflexivity | exact (Ha _ _ Hw)].
  - rewrite serve_exec. cbn [snd].
    destruct (awaited s !! a) as [w|] eqn:Hw; [| now split].
    destruct (result w) as [v|] eqn:Hv; [now split |].
    pose proof (Ha _ _ Hw) as Hc. rewrite Hv in Hc.
    destruct (request w) as [key | key value] eqn:Hq; cbn.
    + split; [exact Hl |]. intros a' w' Hw'. cbn in Hw'.
      apply lookup_insert_Some in Hw' as [[_ <-] | [_ Hw']];
        [| exact (Ha _ _ Hw')].
      cbn. split; [exact Hc |]. intros ->. exact Hl.
    + split; [cbn; now rewrite lookup_insert_ne |]. intros a' w' Hw'.
      cbn in Hw'. apply lookup_insert_Some in Hw' as [[_ <-] | [_ Hw']];
        [exact I | exact (Ha _ _ Hw')].
  - rewrite resume_exec.
    destruct (awaited s !! a) as [w|] eqn:Hw; [| now split].
    cbv zeta.
    assert (Hdrop : settled_on k r
                      (set_awaited (delete a (awaited s)) (next_awaited s) s)).
    { split; [exact Hl |]. intros a' w' Hw'. cbn in Hw'.
      apply lookup_delete_Some in Hw' as [_ Hw']. exact (Ha _ _ Hw'). }
    assert (Hend : forall f s0,
               settled_on k r s0 ->
               settled_on k r (snd (onCommentVisible_end f s0))).
    { intros f s0 [L0 A0].
      destruct (onCommentVisible_end_same_storage f s0) as (E1 & _ & E2).
      split; [now rewrite E2 | now rewrite E1]. }
    destruct r0; [| exact Hdrop].
    destruct (result w) as [v|] eqn:Hv; [| now split].
    pose proof (Ha _ _ Hw) as Hc. rewrite Hv in Hc.
    destruct (request w) as [key | key value] eqn:Hq; [| now apply Hend].
    destruct Hc as [Hk Hread]. rewrite onCommentVisible_rawValue_exec.
    destruct (overwrites h _ v) eqn:Ho; [| now apply Hend].
    rewrite setItem_exec. cbn. split; [exact Hl |].
    intros a' w' Hw'. cbn in Hw'.
    apply lookup_insert_Some in Hw' as [[_ <-] | [_ Hw']].
    + cbn. rewrite Hk. intros ->. rewrite (Hread eq_refl) in Ho.
      cbn in Ho. rewrite !HD, Hr in Ho.
      destruct (D (f_createdAt (frame w))); discriminate Ho.
    + apply lookup_delete_Some in Hw' as [_ Hw']. exact (Ha _ _ Hw').
Qed.

Lemma run_settled_on D (k : string) (r : CursorState) (ts : list Turn) :
  D (createdAt r) = None ->
  Forall (fun t => forall d, Date_valueOf (host t) d = D d) ts ->
  forall s, settled_on k r s -> settled_on k r (run ts s).
Proof.
  intros Hr. induction 1 as [|t ts Ht _ IH]; intros s Hs; cbn;
    [exact Hs |].
  apply IH. now apply (step_settled_on D).
Qed.

(** X12: a first record whose [createdAt] does not parse is written like
    any other.  When the callback that writes it runs alone (no storage
    promise was awaited when it was called, and none of another callback
    came in between), the record then stays: the comparison with an
    invalid date is false, so no later callback, whatever its date and
    however the later callbacks are interleaved, replaces it. *)
Theorem unparsable_first_record_stays (p : Props) (h : Host)
    (visible : bool) (id created cur : string) (s : Store)
    (ts : list Turn) :
  awaited s = ∅ ->
  localStorage s !! cursorKey p = None ->
  Date_valueOf h created = None ->
  Forall (fun t => forall d, Date_valueOf (host t) d = Date_valueOf h d) ts ->
  let s' := run (visible_alone p h visible id created cur s) s in
  localStorage s' !! cursorKey p = Some (seen created cur)
  /\ localStorage (run ts s') !! cursorKey p = Some (seen created cur).
Proof.
  intros He Hnone Hd Hts s'.
  destruct (visible_alone_run p h visible id created cur s)
    as (_ & Hs & _ & Ha).
  fold s' in Hs, Ha.
  assert (E : localStorage s' !! cursorKey p = Some (seen created cur)).
  { rewrite Hs, Hnone. cbn. apply lookup_insert_eq. }
  split; [exact E |].
  apply (run_settled_on (Date_valueOf h) (cursorKey p) (seen created cur) ts
           Hd Hts s').
  split; [exact E |]. intros a w Hw. rewrite (Ha He), lookup_empty in Hw.
  discriminate Hw.
Qed.

(** A comment with a broken date is seen first; then two newer comments
    come into view in one burst. *)
Lemma unparsable_first_record_stays_witness :
  let s := init false ∅ in
  let s' := run (visible_alone sample_props (sample_host 0) true
                   "c0" "yesterday" "cursor0" s) s in
  localStorage (run (map (turn sample_props (sample_host 0)) (burst 3)) s')
    !! cursorKey sample_props
  = Some (seen "yesterday" "cursor0").
Proof.
  intros s s'.
  apply (unparsable_first_record_stays sample_props (sample_host 0) true
           "c0" "yesterday" "cursor0" s
           (map (turn sample_props (sample_host 0)) (burst 3))
           eq_refl (lookup_empty _) eq_refl).
  repeat constructor.
Defined.

(** ** The mount effect while a load is in flight *)

(** X13: when the effect on [story.id] and [cursorSet] runs while a
    pagination load is in flight in either direction, it returns at once:
    no scroll, no [setTailing], no warm-up timer.  Run again after its
    cleanup (the story or the cursor changed), it has cancelled the pending
    warm-up timer and scheduled none. *)
Theorem mount_effect_skipped_in_flight (p : Props) (h : Host) (s : Store) :
  flag s beforeCommentsIncoming = true \/ flag s afterCommentsIncoming = true ->
  let s1 := exec (mount_effect p h) s in
  let s2 := exec (handle p h DepsChanged) s in
  calls (mount_effect p h) s = []
  /\ tailing s1 = tailing s
  /\ timers s1 = timers s
  /\ flag s1 = flag s
  /\ calls (handle p h DepsChanged) s = []
  /\ tailing s2 = tailing s
  /\ flag s2 = flag s
  /\ timers s2 = match timeout s timeoutReg with
                 | Some id => delete id (timers s)
                 | None => timers s
                 end.
Proof.
  intros Hf s1 s2.
  assert (Hb : flag s beforeCommentsIncoming || flag s afterCommentsIncoming
               = true)
    by (destruct Hf as [-> | ->]; [reflexivity | apply orb_true_r]).
  assert (E1 : mount_effect p h s = (Normal tt, set_timeout timeoutReg None s)).
  { unfold mount_effect, bind, read_flag, gets. rewrite Hb. reflexivity. }
  assert (E2 : handle p h DepsChanged s
               = (Normal tt,
                  set_timeout timeoutReg None
                    (match timeout s timeoutReg with
                     | Some id => set_timers (delete id (timers s))
                                             (next_timer s) s
                     | None => s
                     end))).
  { unfold handle, mount_cleanup, mount_effect, bind, read_flag,
      read_timeout, gets.
    destruct (timeout s timeoutReg); cbn; rewrite Hb; reflexivity. }
  repeat split.
  - apply calls_app. unfold exec. rewrite E1. cbn. now rewrite app_nil_r.
  - unfold s1, exec. now rewrite E1.
  - unfold s1, exec. now rewrite E1.
  - unfold s1, exec. now rewrite E1.
  - apply calls_app. unfold exec. rewrite E2. cbn.
    destruct (timeout s timeoutReg); cbn; now rewrite app_nil_r.
  - unfold s2, exec. rewrite E2. destruct (timeout s timeoutReg); reflexivity.
  - unfold s2, exec. rewrite E2. destruct (timeout s timeoutReg); reflexivity.
  - unfold s2, exec. rewrite E2. destruct (timeout s timeoutReg); reflexivity.
Qed.

(** The story changes during the warm-up, while older comments load: the
    warm-up timer is gone and [scrollEnabled.current] is still false. *)
Lemma mount_effect_skipped_in_flight_witness :
  let h := sample_host 0 in
  let s := run [turn resume_props h Mounted; turn resume_props h BeginInView]
               (init false ∅) in
  timers s !! 1%positive = Some (T_enableScroll, 300%Z)
  /\ timers (exec (handle resume_props h DepsChanged) s) = ∅
  /\ flag (exec (handle resume_props h DepsChanged) s) scrollEnabled = false.
Proof.
  intros h s.
  destruct (mount_effect_skipped_in_flight resume_props h s
              (or_introl eq_refl))
    as (_ & _ & _ & _ & _ & _ & Hfl & Ht).
  split; [reflexivity | split].
  - rewrite Ht. reflexivity.
  - rewrite Hfl. reflexivity.
Defined.

(** ** The conversation overlay *)

Lemma act_opens (p : Props) (a : LiveChatView.ConversationAction) :
  LiveChatView.act p a
  = (opened_event p a,
     match opens a with
     | Some (c, ty) =>
         {| LiveChatView.visible := true; LiveChatView.comment := Some c;
            LiveChatView.type := Some ty |}
     | None =>
         {| LiveChatView.visible := false; LiveChatView.comment := None;
            LiveChatView.type := None |}
     end).
Proof. destruct a; reflexivity. Qed.

Lemma acts_app (p : Props) (l1 l2 : list LiveChatView.ConversationAction)
    (v : LiveChatView.ConversationViewState) :
  LiveChatView.acts p (l1 ++ l2) v
  = (fst (LiveChatView.acts p l1 v)
     ++ fst (LiveChatView.acts p l2 (snd (LiveChatView.acts p l1 v))),
     snd (LiveChatView.acts p l2 (snd (LiveChatView.acts p l1 v)))).
Proof.
  revert v. induction l1 as [|a l1 IH]; intros v; cbn.
  - now destruct (LiveChatView.acts p l2 v).
  - destruct (LiveChatView.act p a) as [evs v'] eqn:Ea.
    rewrite IH.
    destruct (LiveChatView.acts p l1 v') as [evs1 v1]; cbn.
    now rewrite app_assoc.
Qed.

Lemma acts_events (p : Props) (l : list LiveChatView.ConversationAction)
    (v : LiveChatView.ConversationViewState) :
  fst (LiveChatView.acts p l v) = concat (map (opened_event p) l).
Proof.
  revert v. induction l as [|a l IH]; intros v; cbn; [reflexivity |].
  destruct (LiveChatView.act p a) as [evs v'] eqn:Ea.
  specialize (IH v').
  destruct (LiveChatView.acts p l v') as [evs' v'']. cbn in *.
  rewrite IH. f_equal.
  rewrite act_opens in Ea. now injection Ea as <- _.
Qed.

Lemma acts_last (p : Props) (l : list LiveChatView.ConversationAction)
    (a : LiveChatView.ConversationAction)
    (v0 : LiveChatView.ConversationViewState) :
  snd (LiveChatView.acts p (l ++ [a]) v0) = snd (LiveChatView.act p a).
Proof.
  rewrite acts_app. cbn. now destruct (LiveChatView.act p a).
Qed.

Lemma render_overlay (before after : list LiveChatView.Edge)
    (v : option Viewer) (pointer : option NewComment)
    (cv : LiveChatView.ConversationViewState) (c : LiveChatView.Target) :
  In (LiveChatView.ConversationOverlay c)
     (LiveChatView.render before after v pointer cv)
  <-> LiveChatView.visible cv = true /\ LiveChatView.comment cv = Some c.
Proof.
  unfold LiveChatView.render. rewrite !in_app_iff. split.
  - intros [H|[H|[H|[H|[H|[H|[H|[H|H]]]]]]]].
    + destruct (_ && _); cbn in H; intuition discriminate.
    + cbn in H; intuition discriminate.
    + apply in_map_iff in H as (e & He & _). discriminate He.
    + cbn in H; intuition discriminate.
    + apply in_map_iff in H as (e & He & _). discriminate He.
    + cbn in H; intuition discriminate.
    + destruct (truthy_option pointer); cbn in H; intuition discriminate.
    + destruct (LiveChatView.visible cv),
        (LiveChatView.comment cv) as [c'|]; cbn in H;
        try contradiction.
      destruct H as [[= <-] | []]. auto.
    + destruct (LiveChatView.showCommentForm v); cbn in H;
        intuition discriminate.
  - intros [Hv Hc]. rewrite Hv, Hc. cbn. do 7 right. left. now left.
Qed.

(** X14: the conversation overlay has no history.  After any sequence of
    conversation actions the overlay is rendered exactly when the last
    action opened one, and then on the comment of that last action, whatever
    was open before; closing leaves nothing rendered.  Every opening action
    emits one open-conversation event with the story id, the comment id,
    its type and the viewer id (empty for an anonymous viewer), and closing
    emits none. *)
Theorem conversation_overlay_follows_last_action (p : Props)
    (l : list LiveChatView.ConversationAction)
    (a : LiveChatView.ConversationAction)
    (v0 : LiveChatView.ConversationViewState)
    (before after : list LiveChatView.Edge) (v : option Viewer)
    (pointer : option NewComment) (c : LiveChatView.Target) :
  let result := LiveChatView.acts p (l ++ [a]) v0 in
  snd result = snd (LiveChatView.act p a)
  /\ (In (LiveChatView.ConversationOverlay c)
         (LiveChatView.render before after v pointer (snd result))
      <-> exists ty, opens a = Some (c, ty))
  /\ fst result = concat (map (opened_event p) (l ++ [a])).
Proof.
  intros result. unfold result.
  split; [apply acts_last | split; [| apply acts_events]].
  rewrite render_overlay, acts_last, act_opens. cbn [snd].
  destruct (opens a) as [[c' ty]|]; cbn; split.
  - intros [_ [= <-]]. now exists ty.
  - intros (ty' & [= <- <-]). auto.
  - intros [H _]. discriminate H.
  - intros (ty' & E). discriminate E.
Qed.

(** ** More on the action bar *)

Lemma rightActions_cases (can_MODERATE : ActionBar.Viewer -> bool)
    (getModerationLink : string -> string) (accessToken : option string)
    (pr : ActionBar.Props) :
  ActionBar.rightActions can_MODERATE getModerationLink accessToken pr
  = if ActionBar.showModerationCaret can_MODERATE pr
    then [ActionBar.ModerateButton
            (ActionBar.gotoModerateCommentHref getModerationLink
               accessToken pr)]
    else if report_guard can_MODERATE pr
         then [ActionBar.ReportButton (ActionBar.showReport pr)]
         else [].
Proof.
  unfold ActionBar.rightActions, report_guard.
  destruct (ActionBar.showModerationCaret can_MODERATE pr); cbn.
  - now rewrite andb_false_r.
  - rewrite andb_true_r. destruct (_ && _); reflexivity.
Qed.

(** X15: the right side of the action bar holds at most one control: the
    moderation link, with the href built for the comment, exactly when the
    moderation caret is shown, and otherwise the report control or nothing;
    a viewer who can moderate the story is never offered the report
    control. *)
Theorem right_actions_exclusive (can_MODERATE : ActionBar.Viewer -> bool)
    (getModerationLink : string -> string) (accessToken : option string)
    (pr : ActionBar.Props) :
  let right :=
    ActionBar.rightActions can_MODERATE getModerationLink accessToken pr in
  length right <= 1
  /\ (forall href,
        In (ActionBar.ModerateButton href) right
        <-> ActionBar.showModerationCaret can_MODERATE pr = true
            /\ href = ActionBar.gotoModerateCommentHref getModerationLink
                        accessToken pr)
  /\ (forall o href,
        ~ (In (ActionBar.ReportButton o) right
           /\ In (ActionBar.ModerateButton href) right)).
Proof.
  intros right. unfold right. rewrite rightActions_cases.
  destruct (ActionBar.showModerationCaret can_MODERATE pr);
    [| destruct (report_guard can_MODERATE pr)]; cbn;
    (split; [lia | split]).
  - intros href. split.
    + intros [[= <-] | []]. auto.
    + intros [_ ->]. now left.
  - intros o href [[H1 | []] _]. discriminate H1.
  - intros href. split.
    + intros [H | []]. discriminate H.
    + intros [H _]. discriminate H.
  - intros o href [_ [H2 | []]]. discriminate H2.
  - intros href. split.
    + intros [].
    + intros [H _]. discriminate H.
  - intros o href [[] _].
Qed.

(** X16: the moderation link is the link of the comment, followed by
    [#accessToken=] and the token exactly when there is a non-empty access
    token and single sign-on is enabled with its admin target filter; in
    every other case the link carries no token. *)
Theorem moderation_link_token (getModerationLink : string -> string)
    (accessToken : option string) (pr : ActionBar.Props) :
  let link := getModerationLink (ActionBar.comment_id (ActionBar.comment pr)) in
  let href :=
    ActionBar.gotoModerateCommentHref getModerationLink accessToken pr in
  (forall tok,
     accessToken = Some tok -> tok <> "" ->
     ActionBar.sso_enabled (ActionBar.settings pr) = true ->
     ActionBar.sso_targetFilter_admin (ActionBar.settings pr) = true ->
     href = (link ++ "#accessToken=" ++ tok)%string)
  /\ (accessToken = None \/ accessToken = Some ""
      \/ ActionBar.sso_enabled (ActionBar.settings pr) = false
      \/ ActionBar.sso_targetFilter_admin (ActionBar.settings pr) = false ->
      href = link).
Proof.
  intros link href. unfold href, link, ActionBar.gotoModerateCommentHref,
    ActionBar.moderationLinkSuffix.
  split.
  - intros tok -> Hne He Ha. rewrite He, Ha.
    destruct (truthy_string tok) eqn:Et;
      [reflexivity | apply truthy_string_false in Et; contradiction].
  - intros [-> | [-> | [H | H]]]; try reflexivity;
      destruct accessToken as [tok|]; try reflexivity;
      rewrite H, ?andb_false_r; reflexivity.
Qed.

Lemma hasStatus_any (pr : ActionBar.Props) :
  ActionBar.isViewerBanned pr || ActionBar.isViewerSuspended pr
  || ActionBar.isViewerWarned pr = true
  <-> exists v st, ActionBar.viewer pr = Some v
                   /\ In st [ActionBar.BANNED; ActionBar.SUSPENDED;
                             ActionBar.WARNED]
                   /\ In st (ActionBar.status_current v).
Proof.
  unfold ActionBar.isViewerBanned, ActionBar.isViewerSuspended,
    ActionBar.isViewerWarned, ActionBar.hasStatus.
  destruct (ActionBar.viewer pr) as [v|].
  - rewrite !orb_true_iff, !includes_In. split.
    + intros [[H | H] | H]; eexists v, _; (split; [reflexivity |]);
        (split; [| exact H]); cbn; auto.
    + intros (v' & st & [= <-] & Hst & Hin).
      destruct Hst as [<- | [<- | [<- | []]]]; auto.
  - split; [discriminate | intros (v & st & E & _); discriminate E].
Qed.

(** X17: on the left of the action bar the reply button is always rendered,
    with or without a viewer; the reaction control is rendered exactly when
    there is a viewer, read-only exactly when the viewer's current status
    includes BANNED, SUSPENDED or WARNED; the conversation button is
    rendered exactly when the comment has replies and an [onConversation]
    handler was supplied, so a click on it always reaches that handler,
    while a click on the reply button without [onReply] does nothing. *)
Theorem left_actions_rendered (pr : ActionBar.Props) :
  let left := ActionBar.leftActions pr in
  In ActionBar.ReplyButton left
  /\ (forall ro,
        In (ActionBar.ReactionButtonContainer ro) left
        <-> ActionBar.viewer pr <> None
            /\ ro = (ActionBar.isViewerBanned pr
                     || ActionBar.isViewerSuspended pr
                     || ActionBar.isViewerWarned pr))
  /\ (ActionBar.isViewerBanned pr || ActionBar.isViewerSuspended pr
      || ActionBar.isViewerWarned pr = true
      <-> exists v st, ActionBar.viewer pr = Some v
                       /\ In st [ActionBar.BANNED; ActionBar.SUSPENDED;
                                 ActionBar.WARNED]
                       /\ In st (ActionBar.status_current v))
  /\ (In ActionBar.ConversationButton left
      <-> (0 < ActionBar.replyCount (ActionBar.comment pr))%Z
          /\ ActionBar.onConversation pr <> None)
  /\ (In ActionBar.ConversationButton left ->
      ActionBarHandlers.onClick pr ActionBar.ConversationButton
      = [ActionBarHandlers.Call_onConversation (ActionBar.comment pr)])
  /\ (ActionBar.onReply pr = None ->
      ActionBarHandlers.onClick pr ActionBar.ReplyButton = []).
Proof.
  intros left. unfold left, ActionBar.leftActions.
  assert (Hconv : In ActionBar.ConversationButton
                     ((if truthy_option (ActionBar.viewer pr)
                       then [ActionBar.ReactionButtonContainer
                               (ActionBar.isViewerBanned pr
                                || ActionBar.isViewerSuspended pr
                                || ActionBar.isViewerWarned pr)]
                       else [])
                      ++ [ActionBar.ReplyButton]
                      ++ (if (0 <? ActionBar.replyCount (ActionBar.comment pr))%Z
                             && truthy_option (ActionBar.onConversation pr)
                          then [ActionBar.ConversationButton] else []))
                  <-> (0 < ActionBar.replyCount (ActionBar.comment pr))%Z
                      /\ ActionBar.onConversation pr <> None).
  { rewrite !in_app_iff, <- Z.ltb_lt, <- truthy_option_true,
      <- andb_true_iff.
    destruct (_ && truthy_option (ActionBar.onConversation pr));
      destruct (truthy_option (ActionBar.viewer pr)); cbn;
      intuition discriminate. }
  split; [| split; [| split; [apply hasStatus_any | split; [exact Hconv |]]]].
  - rewrite !in_app_iff. right. left. now left.
  - intros ro. rewrite !in_app_iff, <- truthy_option_true.
    destruct (truthy_option (ActionBar.viewer pr));
      destruct (_ && truthy_option (ActionBar.onConversation pr)); cbn;
      split; intros H;
      repeat (destruct H as [H | H]); try discriminate; try contradiction;
      try (injection H as <-; auto);
      try (destruct H as [H1 H2]; subst; auto; discriminate).
  - split.
    + intros H. apply Hconv in H as [_ H].
      unfold ActionBarHandlers.onClick, ActionBarHandlers.handleOnConversation.
      destruct (ActionBar.onConversation pr); [reflexivity | contradiction].
    + intros H. unfold ActionBarHandlers.onClick,
        ActionBarHandlers.handleOnReply. now rewrite H.
Qed.

(** ** In-flight loads over the whole event loop *)

Lemma quiet_without_timers (ts : list Turn) :
  Forall (fun t => forall id, event t <> TimerFired id) ts ->
  forall s, quiet ts s.
Proof.
  induction 1 as [|t ts Ht _ IH]; intros s; cbn; [exact I |].
  split; [| apply IH].
  intros (id & delay & E & _). exact (Ht id E).
Qed.

(** X18: from a fresh mount on, over any run of the event loop in which no
    [clearScrollState] timer fires (sentinels, scrolling, loads settling,
    windows changing, comments seen and submitted, other timers), at most
    one backward and at most one forward request is outstanding in every
    store the run passes through, and a request is outstanding only while
    the in-flight ref of its direction is set. *)
Theorem one_load_each_until_cleared (ts : list Turn) (tl : bool)
    (ls : gmap string CursorState) :
  quiet ts (init tl ls) ->
  Forall
    (fun s =>
       forall d, outstanding s d <= 1
                 /\ (outstanding s d = 1 -> flag s (incoming d) = true))
    (trace ts (init tl ls)).
Proof.
  intros Hq.
  eapply Forall_impl;
    [apply quiet_trace_inflight_ok; [exact Hq | apply inflight_ok_init] |].
  intros s Hs d. destruct (Hs d) as [E | [E Hf]]; rewrite E.
  - split; [lia | discriminate].
  - split; [lia | intros _; exact Hf].
Qed.

(** Both sentinels fire, the backward load settles and the before window
    changes; the 300ms of [clearScrollState] are not over. *)
Lemma one_load_each_until_cleared_witness :
  let h := sample_host 0 in
  let ts := [turn sample_props h Mounted;
             turn sample_props h BeginInView;
             turn sample_props h EndInView;
             turn sample_props h (Settled Before Fulfilled);
             turn sample_props h BeforeCommentsChanged;
             turn sample_props h Scrolled;
             turn sample_props h EndInView;
             turn sample_props h BeginInView] in
  Forall (fun s => forall d, outstanding s d <= 1
                             /\ (outstanding s d = 1 ->
                                 flag s (incoming d) = true))
         (trace ts (init false ∅)).
Proof.
  intros h ts.
  apply (one_load_each_until_cleared ts false ∅).
  apply quiet_without_timers. repeat constructor; discriminate.
Defined.

Lemma fire_clearScrollState (h : Host) (id : positive) (d : Z) (s : Store) :
  timers s !! id = Some (T_clearScrollState, d) ->
  fire h id s
  = (Normal tt,
     set_flag afterCommentsIncoming false
       (set_flag beforeCommentsIncoming false
          (set_snap prevScrollTop None
             (set_snap prevScrollHeight None
                (set_timers (delete id (timers s)) (next_timer s) s))))).
Proof. intros Hl. rewrite fire_unfold, Hl. reflexivity. Qed.

(** X19: [clearScrollState] does not tell the directions apart.  When its
    timer fires, both in-flight refs and both scroll snapshots are reset
    and nothing else changes; a request still outstanding stays
    outstanding.  From then on only [isLoadingMoreAfter] holds the end
    sentinel back: with that prop false, more forward data and tailing
    off, the end sentinel issues a load on top of the outstanding ones. *)
Theorem clearScrollState_reopens_both_directions (p : Props) (h : Host)
    (s : Store) (id : positive) (d : Z) :
  timers s !! id = Some (T_clearScrollState, d) ->
  let s' := exec (fire h id) s in
  (forall dir, flag s' (incoming dir) = false)
  /\ (forall r, snap s' r = None)
  /\ outstanding s' = outstanding s
  /\ tailing s' = tailing s
  /\ calls (fire h id) s = []
  /\ (afterHasMore p = true -> isLoadingMoreAfter p = false ->
      tailing s = false ->
      outstanding (exec (onEndInView p) s') After
      = S (outstanding s After)).
Proof.
  intros Hl s'.
  pose proof (fire_clearScrollState h id d s Hl) as E.
  repeat split.
  - intros []; unfold s', exec; rewrite E; reflexivity.
  - intros []; unfold s', exec; rewrite E; reflexivity.
  - unfold s', exec; rewrite E; reflexivity.
  - unfold s', exec; rewrite E; reflexivity.
  - apply calls_app. unfold exec. rewrite E. cbn. now rewrite app_nil_r.
  - intros H1 H2 H3. unfold s', exec at 2. rewrite E. cbn [snd].
    unfold exec, onEndInView, bind, read_flag, gets. cbn.
    rewrite H1, H2, H3. reflexivity.
Qed.

(** A forward load is outstanding when the timer of a backward pagination
    fires; the props of the next render do not report it. *)
Lemma clearScrollState_reopens_both_directions_witness :
  let h := sample_host 0 in
  let s := run [turn sample_props h BeginInView;
                turn sample_props h EndInView;
                turn sample_props h (Settled Before Fulfilled);
                turn sample_props h BeforeCommentsChanged] (init false ∅) in
  outstanding s After = 1
  /\ outstanding (exec (onEndInView sample_props) (exec (fire h 1) s)) After
     = 2.
Proof.
  intros h s.
  assert (Hl : timers s !! 1%positive = Some (T_clearScrollState, 300%Z))
    by (vm_compute; reflexivity).
  split; [vm_compute; reflexivity |].
  apply (clearScrollState_reopens_both_directions sample_props h s 1 300 Hl);
    reflexivity.
Defined.

(** X20: the life of a forward load, away from iOS and with no scroll
    snapshot pending.  The end sentinel sets [afterCommentsIncoming] and
    issues the load; when the after window then changes, nothing is called
    (no scroll position is written) and [clearScrollState] is scheduled
    300ms ahead, the ref still set; when that timer fires the ref is reset,
    and the end sentinel can issue the next load. *)
Theorem forward_load_cycle (p : Props) (h : Host) (s : Store)
    (r : Settlement) :
  afterHasMore p = true ->
  isLoadingMoreAfter p = false ->
  flag s afterCommentsIncoming = false ->
  tailing s = false ->
  isSafari h = false ->
  snap s prevScrollHeight = None ->
  let id := next_timer s in
  let s1 := exec (settle After r) (exec (onEndInView p) s) in
  let s2 := exec (afterCommentsChanged h) s1 in
  let s3 := exec (fire h id) s2 in
  flag s1 afterCommentsIncoming = true
  /\ calls (afterCommentsChanged h) s1 = []
  /\ timers s2 !! id = Some (T_clearScrollState, 300%Z)
  /\ flag s2 afterCommentsIncoming = true
  /\ calls (onEndInView p) s2 = []
  /\ flag s3 afterCommentsIncoming = false
  /\ calls (onEndInView p) s3 = [E_setTailing false; E_loadMore After].
Proof.
  intros H1 H2 H3 H4 H5 H6 id s1 s2 s3.
  assert (E1 : s1 = set_outstanding
                      (upd (upd (outstanding s) After (S (outstanding s After)))
                           After
                           (Nat.pred
                              (upd (outstanding s) After
                                   (S (outstanding s After)) After)))
                      (set_outstanding
                         (upd (outstanding s) After (S (outstanding s After)))
                         (add_log (E_loadMore After)
                            (set_tailing false
                               (add_log (E_setTailing false)
                                  (set_flag afterCommentsIncoming true s)))))).
  { unfold s1, exec, onEndInView, bind, read_flag, gets. cbn.
    rewrite H1, H2, H3, H4. cbn. destruct r; reflexivity. }
  assert (F1 : flag s1 afterCommentsIncoming = true) by (rewrite E1; reflexivity).
  assert (T1 : tailing s1 = false) by (rewrite E1; reflexivity).
  assert (S1 : snap s1 prevScrollHeight = None) by (rewrite E1; exact H6).
  assert (N1 : next_timer s1 = id) by (rewrite E1; reflexivity).
  assert (E2 : afterCommentsChanged h s1
               = (Normal tt,
                  set_timeout clearScrollStateTimeout (Some id)
                    (set_timers
                       (<[id := (T_clearScrollState, 300%Z)]>
                          (foldr (fun c m => match timeout s1 c with
                                             | Some t => delete t m
                                             | None => m
                                             end)
                                 (timers s1)
                                 [clearScrollStateTimeout;
                                  afterMaintainScrollStateTimeout]))
                       (Pos.succ id) s1))).
  { unfold afterCommentsChanged, paginateNewAfterComments,
      maintainPrevScrollStateAndClear, maintainPrevScrollState,
      read_flag, read_timeout, read_snap, write_timeout, clearTimeout,
      setTimeout, when, gets, modify, bind, ret.
    rewrite F1, T1. cbn. rewrite H5.
    destruct (timeout s1 afterMaintainScrollStateTimeout) as [t1|] eqn:Ea;
      cbn; rewrite S1; cbn; rewrite ?Ea;
      destruct (timeout s1 clearScrollStateTimeout) as [t2|] eqn:Ec;
      cbn; rewrite N1; reflexivity. }
  assert (L2 : timers s2 !! id = Some (T_clearScrollState, 300%Z)).
  { unfold s2, exec. rewrite E2. cbn. apply lookup_insert_eq. }
  assert (F2 : flag s2 afterCommentsIncoming = true)
    by (unfold s2, exec; rewrite E2; exact F1).
  assert (T2 : tailing s2 = false)
    by (unfold s2, exec; rewrite E2; exact T1).
  pose proof (fire_clearScrollState h id _ s2 L2) as E3.
  assert (F3 : flag s3 afterCommentsIncoming = false)
    by (unfold s3, exec; rewrite E3; reflexivity).
  assert (T3 : tailing s3 = false)
    by (unfold s3, exec; rewrite E3; exact T2).
  repeat split.
  - exact F1.
  - apply calls_app. unfold exec. rewrite E2. cbn. now rewrite app_nil_r.
  - exact L2.
  - exact F2.
  - apply calls_app. rewrite guard_set_blocks_end by (left; exact F2).
    now rewrite app_nil_r.
  - exact F3.
  - apply calls_app. rewrite onEndInView_log. unfold end_guard.
    rewrite H1, H2, F3, T3. reflexivity.
Qed.

Lemma forward_load_cycle_witness :
  let h := sample_host 600 in
  let s := init false ∅ in
  log (run [turn sample_props h EndInView;
            turn sample_props h (Settled After Fulfilled);
            turn sample_props h AfterCommentsChanged;
            turn sample_props h (TimerFired 1);
            turn sample_props h EndInView] s)
  = [E_setTailing false; E_loadMore After;
     E_setTailing false; E_loadMore After]
  /\ calls (onEndInView sample_props)
           (exec (fire h 1)
                 (exec (afterCommentsChanged h)
                       (exec (settle After Fulfilled)
                             (exec (onEndInView sample_props) s))))
     = [E_setTailing false; E_loadMore After].
Proof.
  intros h s. split; [vm_compute; reflexivity |].
  apply (forward_load_cycle sample_props h s Fulfilled
           eq_refl eq_refl eq_refl eq_refl eq_refl eq_refl).
Defined.
